(** * Insider wallet PnL manager: position reconstruction and redistribution

    A shallow embedding of the two PnL calculators (the pool-capped one and
    the break-even variant) and of [TokenService.fetchWalletData], followed
    by the properties of the specification that concern them.

    Numbers.  The program computes with JavaScript numbers.  This
    development abstracts from rounding and overflow: a number is an exact
    rational or one of +Infinity, -Infinity and NaN.  Arithmetic on finite
    values is exact; division by zero and the propagation of the non-finite
    values follow ECMAScript.  The two signed zeros are identified.

    The statements about the two calculators do not lean on the exactness:
    they are equalities between values that the program computes by the
    same operations in the same order, facts about the values that are not
    finite, and the identities x + 0 = x, x / 1 = x, x * 1 = x and
    x / x = 1 (x finite, not 0), which IEEE-754 arithmetic shares. *)

From Stdlib Require Import QArith Qcanon Field ZArith List Lia.
From stdpp Require Import base option list numbers strings pretty gmap.

Local Open Scope Z_scope.

(** ** JavaScript numbers *)

Module JsNum.

Inductive num : Type :=
  | Fin (q : Qc)
  | PInf
  | NInf
  | NaN.

Global Instance num_eq_dec : EqDecision num.
Proof. solve_decision. Defined.

Definition ofZ (z : Z) : num := Fin (Qc_of_Z z).

Definition zero : num := Fin 0%Qc.

Definition isFin (a : num) : Prop :=
  match a with Fin _ => True | _ => False end.

(** The rational behind a finite number (0 for the others). *)
Definition toQc (a : num) : Qc :=
  match a with Fin q => q | _ => 0%Qc end.

Definition neg (a : num) : num :=
  match a with
  | Fin q => Fin (- q)%Qc
  | PInf => NInf
  | NInf => PInf
  | NaN => NaN
  end.

Definition add (a b : num) : num :=
  match a, b with
  | NaN, _ | _, NaN => NaN
  | Fin x, Fin y => Fin (x + y)%Qc
  | PInf, NInf | NInf, PInf => NaN
  | PInf, _ | _, PInf => PInf
  | NInf, _ | _, NInf => NInf
  end.

Definition sub (a b : num) : num := add a (neg b).

(** The infinity of the sign of [c] times the sign of a positive infinity
    ([flip = false]) or a negative one ([flip = true]); NaN when [c] is
    [Eq], i.e. Infinity * 0. *)
Definition signedInf (c : comparison) (flip : bool) : num :=
  match c, flip with
  | Eq, _ => NaN
  | Gt, false | Lt, true => PInf
  | Gt, true | Lt, false => NInf
  end.

Definition mul (a b : num) : num :=
  match a, b with
  | NaN, _ | _, NaN => NaN
  | Fin x, Fin y => Fin (x * y)%Qc
  | PInf, Fin y | Fin y, PInf => signedInf (y ?= 0)%Qc false
  | NInf, Fin y | Fin y, NInf => signedInf (y ?= 0)%Qc true
  | PInf, PInf | NInf, NInf => PInf
  | PInf, NInf | NInf, PInf => NInf
  end.

Definition div (a b : num) : num :=
  match a, b with
  | NaN, _ | _, NaN => NaN
  | Fin x, Fin y =>
      match (y ?= 0)%Qc with
      | Eq => signedInf (x ?= 0)%Qc false
      | _ => Fin (x / y)%Qc
      end
  | Fin _, (PInf | NInf) => Fin 0%Qc
  | PInf, Fin y => match (y ?= 0)%Qc with Lt => NInf | _ => PInf end
  | NInf, Fin y => match (y ?= 0)%Qc with Lt => PInf | _ => NInf end
  | (PInf | NInf), (PInf | NInf) => NaN
  end.

(** [Math.abs] *)
Definition abs (a : num) : num :=
  match a with
  | Fin q => match (q ?= 0)%Qc with Lt => Fin (- q)%Qc | _ => Fin q end
  | PInf | NInf => PInf
  | NaN => NaN
  end.

(** [a > b] *)
Definition gtb (a b : num) : bool :=
  match a, b with
  | NaN, _ | _, NaN => false
  | Fin x, Fin y => match (x ?= y)%Qc with Gt => true | _ => false end
  | PInf, (Fin _ | NInf) => true
  | Fin _, NInf => true
  | _, _ => false
  end.

(** [a <= b] *)
Definition leb (a b : num) : bool :=
  match a, b with
  | NaN, _ | _, NaN => false
  | Fin x, Fin y => match (x ?= y)%Qc with Gt => false | _ => true end
  | NInf, _ | _, PInf => true
  | _, _ => false
  end.

(** [Math.min(a, b)] *)
Definition min (a b : num) : num :=
  match a, b with
  | NaN, _ | _, NaN => NaN
  | _, _ => if leb a b then a else b
  end.

(** [Math.max(a, b)] *)
Definition max (a b : num) : num :=
  match a, b with
  | NaN, _ | _, NaN => NaN
  | _, _ => if leb a b then b else a
  end.

(** [a === 0] *)
Definition isZero (a : num) : bool := bool_decide (a = zero).

(** ToBoolean of a number: false for 0 and NaN. *)
Definition truthy (a : num) : bool :=
  match a with
  | NaN => false
  | _ => negb (isZero a)
  end.

(** [a || b] on numbers *)
Definition orElse (a b : num) : num := if truthy a then a else b.

End JsNum.

Import JsNum.

Declare Scope num_scope.
Delimit Scope num_scope with num.
Bind Scope num_scope with num.
Infix "+" := add : num_scope.
Infix "-" := sub : num_scope.
Infix "*" := mul : num_scope.
Infix "/" := div : num_scope.
Notation "- a" := (neg a) : num_scope.
Infix ">?" := gtb : num_scope.

(** ** The wallet records (DataInput.WalletData, PnLCalculator.CalculatedWallet) *)

Record WalletData : Type := {
  id : string;
  walletAddress : string;
  tokenName : string;
  investedAmount : num;
  entryMarketCap : num;
  exitMarketCap : num
}.

(** [CalculatedWallet extends WalletData]: the spread [...wallet] is the
    field [wallet]. *)
Record CalculatedWallet : Type := {
  wallet : WalletData;
  rawPnL : num;
  pnLPercentage : num;
  redistributionAmount : num;
  finalBalance : num;
  isProfit : bool
}.

Definition invested (w : CalculatedWallet) : num := investedAmount (wallet w).

(** [l.reduce((sum, w) => sum + f(w), 0)] *)
Definition sumOf {A : Type} (f : A -> num) (l : list A) : num :=
  fold_left (fun sum w => (sum + f w)%num) l zero.

Definition winnersOf (l : list CalculatedWallet) : list CalculatedWallet :=
  List.filter isProfit l.

Definition losersOf (l : list CalculatedWallet) : list CalculatedWallet :=
  List.filter (fun w => negb (isProfit w)) l.

(** The callback of [walletData.map] that opens both calculators. *)
Definition walletWithPnL (wallet : WalletData) : CalculatedWallet :=
  let marketCapRatio := (exitMarketCap wallet / entryMarketCap wallet)%num in
  let newValue := (investedAmount wallet * marketCapRatio)%num in
  let rawPnL := (newValue - investedAmount wallet)%num in
  let pnLPercentage := ((marketCapRatio - ofZ 1) * ofZ 100)%num in
  {| wallet := wallet;
     rawPnL := rawPnL;
     pnLPercentage := pnLPercentage;
     redistributionAmount := zero;
     finalBalance := (investedAmount wallet + rawPnL)%num;
     isProfit := (rawPnL >? zero)%num |}.

Definition totalProfitOf (walletsWithPnL : list CalculatedWallet) : num :=
  sumOf rawPnL (winnersOf walletsWithPnL).

Definition totalLossOf (walletsWithPnL : list CalculatedWallet) : num :=
  abs (sumOf rawPnL (losersOf walletsWithPnL)).

(** ** The pool-capped calculator

    [calculatePnL] returns [None] when it leaves [calculatedData] as it
    was (empty input) and [Some l] when it calls [setCalculatedData(l)].
    The objects in [losers] and [winners] are the objects of
    [walletsWithPnL], each in exactly one of the two, so the two [forEach]
    updates show in the array that is stored: the stored array is
    [walletsWithPnL] with every loser and every winner replaced by its
    updated record. *)

Module PnLCalculator.

Section Calculator.

Variable redistributionMode : string.
Variable customPercentages : gmap string num.

(** [customPercentages[loser.id] || 0] *)
Definition customPercentageOf (loser : CalculatedWallet) : num :=
  match customPercentages !! id (wallet loser) with
  | Some p => orElse p zero
  | None => zero
  end.

(** The body of [losers.forEach]; the [switch] has no default. *)
Definition settleLoser (redistributionAmount' totalLoss : num) (nLosers : nat)
    (loser : CalculatedWallet) : CalculatedWallet :=
  let amount :=
    if String.eqb redistributionMode "equal" then
      (redistributionAmount' / ofZ (Z.of_nat nLosers))%num
    else if String.eqb redistributionMode "proportional" then
      let lossRatio := (abs (rawPnL loser) / totalLoss)%num in
      (redistributionAmount' * lossRatio)%num
    else if String.eqb redistributionMode "custom" then
      let customPercentage := customPercentageOf loser in
      ((redistributionAmount' * customPercentage) / ofZ 100)%num
    else redistributionAmount loser in
  {| wallet := wallet loser;
     rawPnL := rawPnL loser;
     pnLPercentage := pnLPercentage loser;
     redistributionAmount := amount;
     finalBalance := (invested loser + rawPnL loser + amount)%num;
     isProfit := isProfit loser |}.

(** The body of [winners.forEach]. *)
Definition settleWinner (totalRedistributionOut totalProfit : num)
    (winner : CalculatedWallet) : CalculatedWallet :=
  let profitRatio := (rawPnL winner / totalProfit)%num in
  let amount := ((- totalRedistributionOut) * profitRatio)%num in
  {| wallet := wallet winner;
     rawPnL := rawPnL winner;
     pnLPercentage := pnLPercentage winner;
     redistributionAmount := amount;
     finalBalance := (invested winner + rawPnL winner + amount)%num;
     isProfit := isProfit winner |}.

Definition calculatePnL (walletData : list WalletData)
    : option (list CalculatedWallet) :=
  if (length walletData =? 0)%nat then None else
  let walletsWithPnL := map walletWithPnL walletData in
  let totalProfit := totalProfitOf walletsWithPnL in
  let totalLoss := totalLossOf walletsWithPnL in
  let losers := losersOf walletsWithPnL in
  if isZero totalProfit || isZero totalLoss then Some walletsWithPnL else
  let redistributionAmount' := min totalProfit totalLoss in
  let settle := settleLoser redistributionAmount' totalLoss (length losers) in
  let totalRedistributionOut := sumOf redistributionAmount (map settle losers) in
  Some (map (fun w =>
               if isProfit w
               then settleWinner totalRedistributionOut totalProfit w
               else settle w)
            walletsWithPnL).

End Calculator.

End PnLCalculator.

(** ** The break-even variant of the calculator

    Same opening as above; winners are brought back to their invested
    amount and the losers share what was taken from them.  The variant
    reads neither the mode nor the custom percentages. *)

Module BreakEvenCalculator.

(** The body of [winners.forEach], without the accumulation. *)
Definition profitToRedistribute (winner : CalculatedWallet) : num :=
  max zero (finalBalance winner - invested winner)%num.

Definition settleWinner (winner : CalculatedWallet) : CalculatedWallet :=
  {| wallet := wallet winner;
     rawPnL := rawPnL winner;
     pnLPercentage := pnLPercentage winner;
     redistributionAmount := (- profitToRedistribute winner)%num;
     finalBalance := invested winner;
     isProfit := isProfit winner |}.

(** The body of [losers.forEach]. *)
Definition settleLoser (totalRedistributableProfit : num) (nLosers : nat)
    (loser : CalculatedWallet) : CalculatedWallet :=
  let amount := (totalRedistributableProfit / ofZ (Z.of_nat nLosers))%num in
  {| wallet := wallet loser;
     rawPnL := rawPnL loser;
     pnLPercentage := pnLPercentage loser;
     redistributionAmount := amount;
     finalBalance := (invested loser + rawPnL loser + amount)%num;
     isProfit := isProfit loser |}.

(** [totalRedistributableProfit] after [winners.forEach]. *)
Definition totalRedistributableProfitOf (winners : list CalculatedWallet) : num :=
  sumOf profitToRedistribute winners.

Definition calculatePnL (walletData : list WalletData)
    : option (list CalculatedWallet) :=
  if (length walletData =? 0)%nat then None else
  let walletsWithPnL := map walletWithPnL walletData in
  let totalProfit := totalProfitOf walletsWithPnL in
  let totalLoss := totalLossOf walletsWithPnL in
  let losers := losersOf walletsWithPnL in
  let winners := winnersOf walletsWithPnL in
  if isZero totalProfit || isZero totalLoss then Some walletsWithPnL else
  let totalRedistributableProfit := totalRedistributableProfitOf winners in
  Some (map (fun w =>
               if isProfit w
               then settleWinner w
               else settleLoser totalRedistributableProfit (length losers) w)
            walletsWithPnL).

End BreakEvenCalculator.

(** ** TokenService.fetchWalletData

    The embedding starts at the parsed list of transactions of the wallet
    and takes the historical price lookup
    ([fetchHistoricalPriceAndMarketCapUSD], which answers [null] on every
    failure) as a function of the timestamp, the current market cap of the
    token and the clock.  Timestamps are whole seconds. *)

Module TokenService.

Record TokenTransfer : Type := {
  mint : string;
  toUserAccount : string;
  fromUserAccount : string;
  tokenAmount : num;
  decimals : Z
}.

Record Transaction : Type := {
  tokenTransfers : option (list TokenTransfer);
  tx_timestamp : Z
}.

(** An element of [buys] or [sells]: [{ amount, timestamp }]. *)
Record Trade : Type := {
  amount : num;
  timestamp : Z
}.

Global Instance Trade_eq_dec : EqDecision Trade.
Proof. solve_decision. Defined.

(** The answer of the price lookup: [{ price, marketCap }]. *)
Record PriceSample : Type := {
  price : num;
  marketCap : num
}.

Record WalletPosition : Type := {
  investedAmount : num;
  entryMarketCap : num;
  exitMarketCap : num
}.

Global Instance WalletPosition_eq_dec : EqDecision WalletPosition.
Proof. solve_decision. Defined.

(** [{ success: false, error }] or [{ success: true, data }]. *)
Inductive FetchResult : Type :=
  | Failure (error : string)
  | Success (data : WalletPosition).

Global Instance FetchResult_eq_dec : EqDecision FetchResult.
Proof. solve_decision. Defined.

(** [Math.pow(10, d)] for an integer [d]. *)
Definition pow10 (d : Z) : num :=
  match d with
  | Z0 => ofZ 1
  | Zpos p => ofZ (10 ^ Zpos p)
  | Zneg p => (ofZ 1 / ofZ (10 ^ Zpos p))%num
  end.

(** [transfer.tokenAmount / Math.pow(10, transfer.decimals || 0)] *)
Definition tradeOf (tx : Transaction) (transfer : TokenTransfer) : Trade :=
  {| amount := (tokenAmount transfer / pow10 (decimals transfer))%num;
     timestamp := tx_timestamp tx |}.

(** The transfers of the mint that satisfy [side], in the order of the
    two nested [for] loops. *)
Definition collect (contractAddress : string) (side : TokenTransfer -> bool)
    (transactions : list Transaction) : list Trade :=
  flat_map
    (fun tx =>
       match tokenTransfers tx with
       | None => []
       | Some transfers =>
           flat_map
             (fun transfer =>
                if String.eqb (mint transfer) contractAddress && side transfer
                then [tradeOf tx transfer] else [])
             transfers
       end)
    transactions.

Definition collectBuys (walletAddress contractAddress : string) :=
  collect contractAddress (fun t => String.eqb (toUserAccount t) walletAddress).

Definition collectSells (walletAddress contractAddress : string) :=
  collect contractAddress (fun t => String.eqb (fromUserAccount t) walletAddress).

(** [l.sort((a, b) => a.timestamp - b.timestamp)]: the sort is stable. *)
Fixpoint insertByTimestamp (x : Trade) (l : list Trade) : list Trade :=
  match l with
  | [] => [x]
  | y :: l' =>
      if timestamp x <=? timestamp y then x :: l
      else y :: insertByTimestamp x l'
  end.

Definition sortByTimestamp (l : list Trade) : list Trade :=
  fold_right insertByTimestamp [] l.

(** A [while] loop with a bound on the number of iterations; [None] when
    the bound is reached with the condition still true. *)
Fixpoint while {S : Type} (fuel : nat) (cond : S -> bool) (body : S -> S)
    (s : S) : option S :=
  if cond s then
    match fuel with
    | O => None
    | Datatypes.S fuel' => while fuel' cond body (body s)
    end
  else Some s.

(** The variables of the loop over [buys]. *)
Record Ledger : Type := {
  netTokens : num;
  investedUSD : num;
  sells : list Trade;
  sellIndex : nat
}.

(** The variables of the two inner loops. *)
Record Matching : Type := {
  buyAmount : num;
  m_sells : list Trade;
  m_sellIndex : nat
}.

Global Instance Ledger_eq_dec : EqDecision Ledger.
Proof. solve_decision. Defined.

Global Instance Matching_eq_dec : EqDecision Matching.
Proof. solve_decision. Defined.

(** [sellIndex < sells.length && sells[sellIndex].timestamp <= buy.timestamp] *)
Definition skipCond (buy : Trade) (m : Matching) : bool :=
  match m_sells m !! m_sellIndex m with
  | Some sell => timestamp sell <=? timestamp buy
  | None => false
  end.

Definition skipBody (m : Matching) : Matching :=
  {| buyAmount := buyAmount m;
     m_sells := m_sells m;
     m_sellIndex := Datatypes.S (m_sellIndex m) |}.

(** [buyAmount > 0 && sellIndex < sells.length] *)
Definition matchCond (m : Matching) : bool :=
  (buyAmount m >? zero)%num && bool_decide (m_sellIndex m < length (m_sells m))%nat.

Definition matchBody (m : Matching) : Matching :=
  match m_sells m !! m_sellIndex m with
  | None => m
  | Some sell =>
      let sellAmount := min (buyAmount m) (amount sell) in
      let buyAmount' := (buyAmount m - sellAmount)%num in
      let sell' := {| amount := (amount sell - sellAmount)%num;
                      timestamp := timestamp sell |} in
      {| buyAmount := buyAmount';
         m_sells := <[m_sellIndex m := sell']> (m_sells m);
         m_sellIndex := if isZero (amount sell')
                        then Datatypes.S (m_sellIndex m) else m_sellIndex m |}
  end.

(** Iterations that the inner loops are given: each sell is passed over
    once by the first loop and visited at most twice by the second. *)
Definition skipFuel (m : Matching) : nat := length (m_sells m).
Definition matchFuel (m : Matching) : nat := (2 * length (m_sells m) + 1)%nat.

(** [priceData?.price || 0] *)
Definition priceOrZero (priceData : option PriceSample) : num :=
  match priceData with
  | Some d => orElse (price d) zero
  | None => zero
  end.

(** [data && data.marketCap ? data.marketCap : current] *)
Definition marketCapOr (current : num) (data : option PriceSample) : num :=
  match data with
  | Some d => if truthy (marketCap d) then marketCap d else current
  | None => current
  end.

Section Reconstruction.

Variable priceAt : Z -> option PriceSample.

(** One iteration of [for (const buy of buys)]. *)
Definition buyStep (st : Ledger) (buy : Trade) : option Ledger :=
  let m0 := {| buyAmount := amount buy;
               m_sells := sells st;
               m_sellIndex := sellIndex st |} in
  m1 ← while (skipFuel m0) (skipCond buy) skipBody m0;
  m2 ← while (matchFuel m1) matchCond matchBody m1;
  if (buyAmount m2 >? zero)%num then
    let priceData := priceAt (timestamp buy) in
    let price := priceOrZero priceData in
    Some {| netTokens := (netTokens st + buyAmount m2)%num;
            investedUSD := (investedUSD st + buyAmount m2 * price)%num;
            sells := m_sells m2;
            sellIndex := m_sellIndex m2 |}
  else
    Some {| netTokens := netTokens st;
            investedUSD := investedUSD st;
            sells := m_sells m2;
            sellIndex := m_sellIndex m2 |}.

Fixpoint buyLoop (st : Ledger) (buys : list Trade) : option Ledger :=
  match buys with
  | [] => Some st
  | buy :: rest => st' ← buyStep st buy; buyLoop st' rest
  end.

Definition initialLedger (sells : list Trade) : Ledger :=
  {| netTokens := zero; investedUSD := zero; sells := sells; sellIndex := 0 |}.

(** [fetchWalletData] from the parsed transactions on; [now] is
    [Math.floor(Date.now() / 1000)] and [currentMarketCap] is
    [tokenData.currentMarketCap].  Reading [buys[0]] of an empty array
    would throw and end in the [catch] clause.  [None] only when an inner
    loop has exhausted its iterations. *)
Definition fetchWalletData (walletAddress contractAddress : string)
    (currentMarketCap : num) (now : Z) (transactions : list Transaction)
    : option FetchResult :=
  let buys := collectBuys walletAddress contractAddress transactions in
  let sells := collectSells walletAddress contractAddress transactions in
  if (length buys =? 0)%nat then
    Some (Failure "No buy (IN) transactions found for this wallet/token.")
  else
  let buys := sortByTimestamp buys in
  let sells := sortByTimestamp sells in
  match head buys with
  | None => Some (Failure "Failed to fetch wallet data")
  | Some firstBuy =>
      let entryTimestamp := timestamp firstBuy in
      let exitTimestamp :=
        match last sells with
        | Some lastSell => timestamp lastSell
        | None => now
        end in
      let entryMarketCap := marketCapOr currentMarketCap (priceAt entryTimestamp) in
      let exitMarketCap := marketCapOr currentMarketCap (priceAt exitTimestamp) in
      st ← buyLoop (initialLedger sells) buys;
      Some (Success {| investedAmount := investedUSD st;
                       entryMarketCap := entryMarketCap;
                       exitMarketCap := exitMarketCap |})
  end.

End Reconstruction.

End TokenService.

(** ** The rest of the calculator components

    What the two [PnLCalculator] components do besides [calculatePnL]: the
    handler of the custom percentage inputs and, in the break-even
    variant, the order of the result table. *)

(** [setCustomPercentages(prev => ({ ...prev, [walletId]: percentage }))] *)
Definition handleCustomPercentageChange (walletId : string) (percentage : num)
    (prev : gmap string num) : gmap string num :=
  <[walletId := percentage]> prev.

(** [l.sort(cmp)] for a comparator that answers a number: the sort is
    stable, an element goes in front of the first one that it does not
    come after. *)
Fixpoint insertBy {A : Type} (cmp : A -> A -> Z) (x : A) (l : list A) : list A :=
  match l with
  | [] => [x]
  | y :: l' => if cmp x y <=? 0 then x :: l else y :: insertBy cmp x l'
  end.

Definition stableSort {A : Type} (cmp : A -> A -> Z) (l : list A) : list A :=
  fold_right (insertBy cmp) [] l.

(** The comparator of [sortedData]: profit wallets first. *)
Definition profitFirst (a b : CalculatedWallet) : Z :=
  if Bool.eqb (isProfit a) (isProfit b) then 0
  else if isProfit a then -1 else 1.

(** [[...calculatedData].sort(...)] of the break-even component. *)
Definition sortedData (calculatedData : list CalculatedWallet)
    : list CalculatedWallet :=
  stableSort profitFirst calculatedData.

(** ** The wallet form (DataInput)

    The state of the [DataInput] component and the handlers that change
    it: the inputs of the form, the two asynchronous fills, [addWallet]
    and [removeWallet].  [Date.now()] is an argument of [addWallet] and
    the toast that it shows is the second component of its result.  Every
    list that [addWallet] or [removeWallet] stores is also handed to
    [onDataUpdate], so that the [walletData] of the calculator is the
    [wallets] of this state.  The CSV import is not part of the model. *)

Module DataInput.

(** [Omit<WalletData, 'id'>] *)
Record NewWallet : Type := {
  new_walletAddress : string;
  new_tokenName : string;
  new_investedAmount : num;
  new_entryMarketCap : num;
  new_exitMarketCap : num
}.

Record TokenData : Type := {
  name : string;
  symbol : string;
  currentMarketCap : num;
  priceHistory : list (Z * num)
}.

Record State : Type := {
  wallets : list WalletData;
  tokenData : option TokenData;
  newWallet : NewWallet
}.

Inductive Toast : Type :=
  | InvalidInput
  | WalletAdded.

Definition initialState : State :=
  {| wallets := [];
     tokenData := None;
     newWallet := {| new_walletAddress := ""; new_tokenName := "";
                     new_investedAmount := zero; new_entryMarketCap := zero;
                     new_exitMarketCap := zero |} |}.

(** [!s] on a string *)
Definition falsyString (s : string) : bool :=
  match s with
  | EmptyString => true
  | String _ _ => false
  end.

Definition withNewWallet (st : State) (draft : NewWallet) : State :=
  {| wallets := wallets st; tokenData := tokenData st; newWallet := draft |}.

(** The [onChange] handlers of the five inputs; the numeric ones are given
    [parseFloat(e.target.value)] and store [parsed || 0]. *)
Definition walletAddressChanged (address : string) (st : State) : State :=
  let d := newWallet st in
  withNewWallet st
    {| new_walletAddress := address; new_tokenName := new_tokenName d;
       new_investedAmount := new_investedAmount d;
       new_entryMarketCap := new_entryMarketCap d;
       new_exitMarketCap := new_exitMarketCap d |}.

Definition tokenNameChanged (value : string) (st : State) : State :=
  let d := newWallet st in
  withNewWallet st
    {| new_walletAddress := new_walletAddress d; new_tokenName := value;
       new_investedAmount := new_investedAmount d;
       new_entryMarketCap := new_entryMarketCap d;
       new_exitMarketCap := new_exitMarketCap d |}.

Definition investedAmountChanged (parsed : num) (st : State) : State :=
  let d := newWallet st in
  withNewWallet st
    {| new_walletAddress := new_walletAddress d;
       new_tokenName := new_tokenName d;
       new_investedAmount := orElse parsed zero;
       new_entryMarketCap := new_entryMarketCap d;
       new_exitMarketCap := new_exitMarketCap d |}.

Definition entryMarketCapChanged (parsed : num) (st : State) : State :=
  let d := newWallet st in
  withNewWallet st
    {| new_walletAddress := new_walletAddress d;
       new_tokenName := new_tokenName d;
       new_investedAmount := new_investedAmount d;
       new_entryMarketCap := orElse parsed zero;
       new_exitMarketCap := new_exitMarketCap d |}.

Definition exitMarketCapChanged (parsed : num) (st : State) : State :=
  let d := newWallet st in
  withNewWallet st
    {| new_walletAddress := new_walletAddress d;
       new_tokenName := new_tokenName d;
       new_investedAmount := new_investedAmount d;
       new_entryMarketCap := new_entryMarketCap d;
       new_exitMarketCap := orElse parsed zero |}.

(** The state change of [fetchTokenData] when the service answers with
    data. *)
Definition tokenLoaded (data : TokenData) (st : State) : State :=
  let prev := newWallet st in
  {| wallets := wallets st;
     tokenData := Some data;
     newWallet :=
       {| new_walletAddress := new_walletAddress prev;
          new_tokenName := name data;
          new_investedAmount := new_investedAmount prev;
          new_entryMarketCap := new_entryMarketCap prev;
          new_exitMarketCap := currentMarketCap data |} |}.

(** The state change of [autoFillWalletData] when the service answers
    with a position. *)
Definition autoFilled (data : TokenService.WalletPosition) (st : State)
    : State :=
  let prev := newWallet st in
  withNewWallet st
    {| new_walletAddress := new_walletAddress prev;
       new_tokenName := new_tokenName prev;
       new_investedAmount := TokenService.investedAmount data;
       new_entryMarketCap := TokenService.entryMarketCap data;
       new_exitMarketCap := TokenService.exitMarketCap data |}.

(** The form after a wallet has been added: [tokenData?.name || ''] and
    [tokenData?.currentMarketCap || 0] where a token is loaded. *)
Definition clearedForm (tokenData : option TokenData) : NewWallet :=
  {| new_walletAddress := "";
     new_tokenName :=
       match tokenData with
       | Some t => if falsyString (name t) then "" else name t
       | None => ""
       end;
     new_investedAmount := zero;
     new_entryMarketCap := zero;
     new_exitMarketCap :=
       match tokenData with
       | Some t => orElse (currentMarketCap t) zero
       | None => zero
       end |}.

(** [addWallet]; the id is [Date.now().toString()], the decimal digits of
    the clock. *)
Definition addWallet (now : Z) (st : State) : State * Toast :=
  let d := newWallet st in
  if falsyString (new_walletAddress d) || falsyString (new_tokenName d)
     || leb (new_investedAmount d) zero
  then (st, InvalidInput)
  else
    let wallet :=
      {| id := pretty now;
         walletAddress := new_walletAddress d;
         tokenName := new_tokenName d;
         investedAmount := new_investedAmount d;
         entryMarketCap := new_entryMarketCap d;
         exitMarketCap := new_exitMarketCap d |} in
    let updatedWallets := wallets st ++ [wallet] in
    ({| wallets := updatedWallets;
        tokenData := tokenData st;
        newWallet := clearedForm (tokenData st) |}, WalletAdded).

(** [wallets.filter(w => w.id !== id)] *)
Definition removeWallet (walletId : string) (st : State) : State :=
  {| wallets :=
       List.filter (fun w => negb (String.eqb (id w) walletId)) (wallets st);
     tokenData := tokenData st;
     newWallet := newWallet st |}.

(** What a user and the two services can do to the component. *)
Inductive Event : Type :=
  | WalletAddressChanged (address : string)
  | TokenNameChanged (value : string)
  | InvestedAmountChanged (parsed : num)
  | EntryMarketCapChanged (parsed : num)
  | ExitMarketCapChanged (parsed : num)
  | TokenLoaded (data : TokenData)
  | AutoFilled (data : TokenService.WalletPosition)
  | AddClicked (now : Z)
  | RemoveClicked (walletId : string).

Definition handle (st : State) (event : Event) : State :=
  match event with
  | WalletAddressChanged address => walletAddressChanged address st
  | TokenNameChanged value => tokenNameChanged value st
  | InvestedAmountChanged parsed => investedAmountChanged parsed st
  | EntryMarketCapChanged parsed => entryMarketCapChanged parsed st
  | ExitMarketCapChanged parsed => exitMarketCapChanged parsed st
  | TokenLoaded data => tokenLoaded data st
  | AutoFilled data => autoFilled data st
  | AddClicked now => fst (addWallet now st)
  | RemoveClicked walletId => removeWallet walletId st
  end.

(** The component after a sequence of events, from its first render. *)
Definition session (events : list Event) : State :=
  fold_left handle events initialState.

End DataInput.

(** ** Vocabulary of the statements *)

(** The minimum of two rationals, as [Math.min] computes it on finite
    numbers. *)
Definition Qcmin (x y : Qc) : Qc :=
  match (x ?= y)%Qc with Gt => y | _ => x end.

(** The sum of a list of rationals. *)
Definition Qsum (l : list Qc) : Qc := fold_right Qcplus 0%Qc l.

(** [finalBalance = investedAmount + rawPnL + redistributionAmount] *)
Definition balanced (c : CalculatedWallet) : Prop :=
  finalBalance c = (invested c + rawPnL c + redistributionAmount c)%num.

(** A record that no redistribution has touched. *)
Definition untouched (c : CalculatedWallet) : Prop :=
  redistributionAmount c = zero /\
  finalBalance c = (invested c + rawPnL c)%num.

(** The bounded pool of a pass, [Math.min(totalProfit, totalLoss)]. *)
Definition poolOf (W : list CalculatedWallet) : num :=
  min (totalProfitOf W) (totalLossOf W).

(** The gate in front of the redistribution. *)
Definition nothingToRedistribute (W : list CalculatedWallet) : bool :=
  isZero (totalProfitOf W) || isZero (totalLossOf W).

(** Two wallets of 1000 each, entered at a market cap of 2: [walletA]
    leaves at 3 (raw PnL +500), [walletB] at 1 (raw PnL -500). *)
Definition walletA : WalletData :=
  {| id := "A"; walletAddress := "addrA"; tokenName := "TOK";
     investedAmount := ofZ 1000; entryMarketCap := ofZ 2;
     exitMarketCap := ofZ 3 |}.

Definition walletB : WalletData :=
  {| id := "B"; walletAddress := "addrB"; tokenName := "TOK";
     investedAmount := ofZ 1000; entryMarketCap := ofZ 2;
     exitMarketCap := ofZ 1 |}.

(** A wallet entered with an entry market cap of 0. *)
Definition walletZ : WalletData :=
  {| id := "Z"; walletAddress := "addrZ"; tokenName := "TOK";
     investedAmount := ofZ 1000; entryMarketCap := ofZ 0;
     exitMarketCap := ofZ 2000000 |}.

Definition isNaN (a : num) : bool :=
  match a with NaN => true | _ => false end.

(** The sells that the first inner loop has not passed yet. *)
Definition skipMeasure (m : TokenService.Matching) : nat :=
  (length (TokenService.m_sells m) - S (TokenService.m_sellIndex m))%nat.

(** Twice the sells that the second inner loop has not retired, less one
    when the current sell has already been turned into NaN. *)
Definition matchMeasure (m : TokenService.Matching) : nat :=
  (2 * (length (TokenService.m_sells m) - TokenService.m_sellIndex m)
   - match TokenService.m_sells m !! TokenService.m_sellIndex m with
     | Some sell => if isNaN (TokenService.amount sell) then 1 else 0
     | None => 0
     end)%nat.

(** The transfers of the worked example: wallet "W" receives 100 units of
    mint "M" at t=0, sends 120 at t=5 and receives 50 at t=10. *)
Definition transferIn (units : Z) : TokenService.TokenTransfer :=
  {| TokenService.mint := "M"; TokenService.toUserAccount := "W";
     TokenService.fromUserAccount := "X";
     TokenService.tokenAmount := ofZ units; TokenService.decimals := 0 |}.

Definition transferOut (units : Z) : TokenService.TokenTransfer :=
  {| TokenService.mint := "M"; TokenService.toUserAccount := "X";
     TokenService.fromUserAccount := "W";
     TokenService.tokenAmount := ofZ units; TokenService.decimals := 0 |}.

Definition exampleTransactions : list TokenService.Transaction :=
  [ {| TokenService.tokenTransfers := Some [transferIn 100];
       TokenService.tx_timestamp := 0 |};
    {| TokenService.tokenTransfers := Some [transferOut 120];
       TokenService.tx_timestamp := 5 |};
    {| TokenService.tokenTransfers := Some [transferIn 50];
       TokenService.tx_timestamp := 10 |} ].

Definition trade (units : Z) (t : Z) : TokenService.Trade :=
  {| TokenService.amount := ofZ units; TokenService.timestamp := t |}.

(** A price lookup that answers price 2 and market cap 1000 at every
    timestamp. *)
Definition flatPrice (t : Z) : option TokenService.PriceSample :=
  Some {| TokenService.price := ofZ 2; TokenService.marketCap := ofZ 1000 |}.

(** The timestamp of the exit lookup: the last sell, or the clock. *)
Definition exitTimestampOf (sells : list TokenService.Trade) (now : Z) : Z :=
  match last sells with
  | Some lastSell => TokenService.timestamp lastSell
  | None => now
  end.

(** A trade with a finite amount. *)
Definition finiteTrade (t : TokenService.Trade) : Prop :=
  isFin (TokenService.amount t).

(** The loop variables of a buy whose amounts are all finite. *)
Definition finiteMatching (m : TokenService.Matching) : Prop :=
  isFin (TokenService.buyAmount m) /\
  Forall finiteTrade (TokenService.m_sells m).

(** The price lookup that misses wherever [priceAt] answers a sample
    whose price and market cap are both 0. *)
Definition missWhenZero (priceAt : Z -> option TokenService.PriceSample)
    (t : Z) : option TokenService.PriceSample :=
  match priceAt t with
  | Some sample =>
      if isZero (TokenService.price sample)
         && isZero (TokenService.marketCap sample)
      then None else Some sample
  | None => None
  end.

(** A price lookup that never answers. *)
Definition noPrice (t : Z) : option TokenService.PriceSample := None.

(** A price lookup that answers price 0 and market cap 0 at every
    timestamp. *)
Definition zeroPrice (t : Z) : option TokenService.PriceSample :=
  Some {| TokenService.price := zero; TokenService.marketCap := zero |}.

(** A transfer that [fetchWalletData] reads: of the mint, to or from the
    wallet. *)
Definition concerns (walletAddress contractAddress : string)
    (t : TokenService.TokenTransfer) : bool :=
  String.eqb (TokenService.mint t) contractAddress
  && (String.eqb (TokenService.toUserAccount t) walletAddress
      || String.eqb (TokenService.fromUserAccount t) walletAddress).

(** The transactions without the transfers that do not concern the wallet
    and the mint. *)
Definition prune (walletAddress contractAddress : string)
    (transactions : list TokenService.Transaction)
    : list TokenService.Transaction :=
  map (fun tx =>
         {| TokenService.tokenTransfers :=
              option_map (List.filter (concerns walletAddress contractAddress))
                (TokenService.tokenTransfers tx);
            TokenService.tx_timestamp := TokenService.tx_timestamp tx |})
      transactions.

(** The buys that count when no sell is matched: those with a positive
    amount, each at the price read at its timestamp. *)
Definition boughtValue (priceAt : Z -> option TokenService.PriceSample)
    (buys : list TokenService.Trade) : num :=
  sumOf (fun buy =>
           (TokenService.amount buy
            * TokenService.priceOrZero (priceAt (TokenService.timestamp buy)))%num)
        (List.filter (fun buy => (TokenService.amount buy >? zero)%num) buys).

(** Wallet "W" receives 100 units of mint "M" at t=0 and 50 at t=10, and
    sends nothing. *)
Definition buyOnlyTransactions : list TokenService.Transaction :=
  [ {| TokenService.tokenTransfers := Some [transferIn 100];
       TokenService.tx_timestamp := 0 |};
    {| TokenService.tokenTransfers := Some [transferIn 50];
       TokenService.tx_timestamp := 10 |} ].

(** The ledger after a buy against which no sell is matched, with the
    cursor at [index]. *)
Definition booked (priceAt : Z -> option TokenService.PriceSample)
    (st : TokenService.Ledger) (buy : TokenService.Trade) (index : nat)
    : TokenService.Ledger :=
  if (TokenService.amount buy >? zero)%num then
    {| TokenService.netTokens :=
         (TokenService.netTokens st + TokenService.amount buy)%num;
       TokenService.investedUSD :=
         (TokenService.investedUSD st
          + TokenService.amount buy
            * TokenService.priceOrZero (priceAt (TokenService.timestamp buy)))%num;
       TokenService.sells := TokenService.sells st;
       TokenService.sellIndex := index |}
  else
    {| TokenService.netTokens := TokenService.netTokens st;
       TokenService.investedUSD := TokenService.investedUSD st;
       TokenService.sells := TokenService.sells st;
       TokenService.sellIndex := index |}.

(** Transactions whose transfers all carry a finite token amount. *)
Definition finiteTransfers (transactions : list TokenService.Transaction) : Prop :=
  forall tx transfers t,
    In tx transactions ->
    TokenService.tokenTransfers tx = Some transfers ->
    In t transfers ->
    isFin (TokenService.tokenAmount t).

(** A finite number that is not negative. *)
Definition nonNegative (a : num) : Prop :=
  exists q, a = Fin q /\ (0 <= q)%Qc.

Definition nonNegativeTrade (t : TokenService.Trade) : Prop :=
  nonNegative (TokenService.amount t).

(** Transactions whose transfers all carry a token amount that is finite
    and not negative. *)
Definition nonNegativeTransfers
    (transactions : list TokenService.Transaction) : Prop :=
  forall tx transfers t,
    In tx transactions ->
    TokenService.tokenTransfers tx = Some transfers ->
    In t transfers ->
    nonNegative (TokenService.tokenAmount t).

(** A price lookup whose prices are finite and not negative. *)
Definition nonNegativePrices
    (priceAt : Z -> option TokenService.PriceSample) : Prop :=
  forall t, nonNegative (TokenService.priceOrZero (priceAt t)).

(** The value of a buy at the price read at its timestamp, as a
    rational. *)
Definition valueQ (priceAt : Z -> option TokenService.PriceSample)
    (buy : TokenService.Trade) : Qc :=
  (toQc (TokenService.amount buy)
   * toQc (TokenService.priceOrZero (priceAt (TokenService.timestamp buy))))%Qc.

(** The loop variables of a buy of [a] units: what is left of the buy is
    between 0 and [a], and no sell is negative. *)
Definition boundedMatching (a : Qc) (m : TokenService.Matching) : Prop :=
  (exists x, TokenService.buyAmount m = Fin x /\ (0 <= x)%Qc /\ (x <= a)%Qc) /\
  Forall nonNegativeTrade (TokenService.m_sells m).

(** A wallet entered with the form's default market caps, 0 and 0: its
    raw PnL is NaN. *)
Definition walletN : WalletData :=
  {| id := "N"; walletAddress := "addrN"; tokenName := "TOK";
     investedAmount := ofZ 1000; entryMarketCap := ofZ 0;
     exitMarketCap := ofZ 0 |}.

(** The three modes that the component offers. *)
Definition offeredMode (mode : string) : Prop :=
  mode = "equal"%string \/ mode = "proportional"%string \/
  mode = "custom"%string.

(** The clock readings of the clicks on "Add Wallet", first to last. *)
Definition clockReadings (events : list DataInput.Event) : list Z :=
  flat_map (fun event =>
              match event with
              | DataInput.AddClicked now => [now]
              | _ => []
              end) events.

(** What [addWallet] has checked of a wallet that it stores. *)
Definition checkedByForm (w : WalletData) : Prop :=
  walletAddress w <> ""%string /\ tokenName w <> ""%string /\
  leb (investedAmount w) zero = false.

(** A session that adds two wallets and removes the second. *)
Definition exampleSession : list DataInput.Event :=
  [ DataInput.WalletAddressChanged "addrA";
    DataInput.TokenNameChanged "TOK";
    DataInput.InvestedAmountChanged (ofZ 1000);
    DataInput.AddClicked 1700000000000;
    DataInput.AddClicked 1700000000001;
    DataInput.WalletAddressChanged "addrB";
    DataInput.TokenNameChanged "TOK";
    DataInput.InvestedAmountChanged (ofZ 500);
    DataInput.AddClicked 1700000000002;
    DataInput.RemoveClicked "1700000000002" ].

Global Instance WalletData_eq_dec : EqDecision WalletData.
Proof. solve_decision. Defined.

Global Instance CalculatedWallet_eq_dec : EqDecision CalculatedWallet.
Proof. solve_decision. Defined.

(** What the pool-capped pass gives a loser out of the pool
    [Math.min(totalProfit, totalLoss)], policy by policy. *)
Definition loserShare (mode : string) (pcts : gmap string num)
    (W : list CalculatedWallet) (c : CalculatedWallet) : Prop :=
  (mode = "equal"%string ->
   redistributionAmount c
   = (poolOf W / ofZ (Z.of_nat (length (losersOf W))))%num) /\
  (mode = "proportional"%string ->
   redistributionAmount c
   = (poolOf W * (abs (rawPnL c) / totalLossOf W))%num) /\
  (mode = "custom"%string ->
   redistributionAmount c
   = ((poolOf W * PnLCalculator.customPercentageOf pcts c) / ofZ 100)%num).

(** A single loser under a policy that hands it the whole pool. *)
Definition wholePoolPolicy (mode : string) (c : CalculatedWallet) : Prop :=
  mode = "equal"%string \/ (mode = "proportional"%string /\ isFin (rawPnL c)).

(** [totalRedistributionOut]: what the losers of a pool-capped pass are
    given in total. *)
Definition totalRedistributionOutOf (mode : string) (pcts : gmap string num)
    (W : list CalculatedWallet) : num :=
  sumOf redistributionAmount
    (map (PnLCalculator.settleLoser mode pcts (poolOf W) (totalLossOf W)
            (length (losersOf W)))
         (losersOf W)).

(** The array that a pool-capped pass stores when the redistribution
    runs. *)
Definition redistributed (mode : string) (pcts : gmap string num)
    (W : list CalculatedWallet) : list CalculatedWallet :=
  map (fun c =>
         if isProfit c
         then PnLCalculator.settleWinner (totalRedistributionOutOf mode pcts W)
                (totalProfitOf W) c
         else PnLCalculator.settleLoser mode pcts (poolOf W) (totalLossOf W)
                (length (losersOf W)) c)
      W.

(** [Math.max(0, finalBalance - investedAmount)] on a record whose
    finalBalance is still investedAmount + rawPnL: the profit of a wallet
    above its invested principal. *)
Definition profitAbovePrincipal (c : CalculatedWallet) : num :=
  max zero ((invested c + rawPnL c) - invested c)%num.

(** A winner as the break-even variant stores it. *)
Definition atBreakEven (c : CalculatedWallet) : Prop :=
  finalBalance c = invested c /\
  redistributionAmount c = (- profitAbovePrincipal c)%num.

(** The stream holds an IN event: a transfer of the mint to the wallet. *)
Definition hasInEvent (walletAddress contractAddress : string)
    (transactions : list TokenService.Transaction) : Prop :=
  exists tx transfers transfer,
    In tx transactions /\
    TokenService.tokenTransfers tx = Some transfers /\
    In transfer transfers /\
    TokenService.mint transfer = contractAddress /\
    TokenService.toUserAccount transfer = walletAddress.

(** Wallet "W" sends 120 units of mint "M" at t=5, receives 7 units of
    another mint at t=6, and never receives mint "M". *)
Definition sellOnlyTransactions : list TokenService.Transaction :=
  [ {| TokenService.tokenTransfers := Some [transferOut 120];
       TokenService.tx_timestamp := 5 |};
    {| TokenService.tokenTransfers :=
         Some [ {| TokenService.mint := "other";
                   TokenService.toUserAccount := "W";
                   TokenService.fromUserAccount := "X";
                   TokenService.tokenAmount := ofZ 7;
                   TokenService.decimals := 0 |} ];
       TokenService.tx_timestamp := 6 |};
    {| TokenService.tokenTransfers := None;
       TokenService.tx_timestamp := 7 |} ].

(** * Properties *)

(** Closed equations and disequations between numbers, by evaluation. *)
Ltac by_evaluation :=
  match goal with
  | |- _ = _ => apply (bool_decide_eq_true_1 _); vm_compute; reflexivity
  | |- _ <> _ => apply (bool_decide_eq_false_1 _); vm_compute; reflexivity
  end.

(** ** Arithmetic of the numbers *)

Section NumFacts.

Local Open Scope Qc_scope.

Lemma add_zero_r (a : num) : (a + zero)%num = a.
Proof. destruct a; simpl; try reflexivity. now rewrite Qcplus_0_r. Qed.

Lemma add_zero_l (a : num) : (zero + a)%num = a.
Proof. destruct a; simpl; try reflexivity. now rewrite Qcplus_0_l. Qed.

Lemma isFin_Fin (a : num) : isFin a -> a = Fin (toQc a).
Proof. destruct a; simpl; intros H; now try destruct H. Qed.

Lemma isFin_inv (a : num) : isFin a -> exists q, a = Fin q.
Proof. intros H. exists (toQc a). now apply isFin_Fin. Qed.

Lemma div_Fin (x y : Qc) : y <> 0 -> (Fin x / Fin y)%num = Fin (x / y).
Proof.
  intros Hy. simpl. destruct (y ?= 0) eqn:E; try reflexivity.
  apply Qceq_alt in E. contradiction.
Qed.

Lemma gtb_Fin_zero (x : Qc) : (Fin x >? zero)%num = true <-> 0 < x.
Proof.
  unfold gtb, zero. destruct (x ?= 0) eqn:E.
  - apply Qceq_alt in E. subst x. split; [discriminate|].
    intros H. now apply Qclt_not_eq in H.
  - apply Qclt_alt in E. split; [discriminate|].
    intros H. exfalso. apply (Qclt_not_le _ _ H). now apply Qclt_le_weak.
  - apply Qcgt_alt in E. split; auto.
Qed.

Lemma gtb_Fin_zero_false (x : Qc) : (Fin x >? zero)%num = false <-> x <= 0.
Proof.
  split.
  - intros H. apply Qcnot_lt_le. intros Hlt.
    apply gtb_Fin_zero in Hlt. congruence.
  - intros H. destruct (Fin x >? zero)%num eqn:E; [|reflexivity].
    apply gtb_Fin_zero in E. exfalso. now apply (Qcle_not_lt _ _ H).
Qed.

Lemma isZero_Fin (x : Qc) : isZero (Fin x) = true <-> x = 0.
Proof.
  unfold isZero, zero. rewrite bool_decide_eq_true.
  split; [now intros [= ->] | now intros ->].
Qed.

Lemma isZero_true (a : num) : isZero a = true <-> a = zero.
Proof. unfold isZero. apply bool_decide_eq_true. Qed.

Lemma isZero_false (a : num) : isZero a = false <-> a <> zero.
Proof. unfold isZero. apply bool_decide_eq_false. Qed.

Lemma Qcopp_0 : - (0 : Qc) = 0.
Proof. ring. Qed.

Lemma min_Fin (x y : Qc) : min (Fin x) (Fin y) = Fin (Qcmin x y).
Proof. unfold min, leb, Qcmin. now destruct (x ?= y). Qed.

Lemma Qcmin_le_l (x y : Qc) : Qcmin x y <= x.
Proof.
  unfold Qcmin. destruct (x ?= y) eqn:E; try apply Qcle_refl.
  apply Qcgt_alt in E. now apply Qclt_le_weak.
Qed.

Lemma Qcmin_nonneg (x y : Qc) : 0 <= x -> 0 <= y -> 0 <= Qcmin x y.
Proof. intros Hx Hy. unfold Qcmin. now destruct (x ?= y). Qed.

Lemma Qcmin_le_r (x y : Qc) : Qcmin x y <= y.
Proof.
  unfold Qcmin. destruct (x ?= y) eqn:E; try apply Qcle_refl.
  - apply Qceq_alt in E. subst. apply Qcle_refl.
  - apply Qclt_alt in E. now apply Qclt_le_weak.
Qed.

Lemma Qcle_plus_r (a x y : Qc) : x <= y -> a + x <= a + y.
Proof. intros H. apply Qcplus_le_compat; [apply Qcle_refl | assumption]. Qed.

Lemma Qc_of_Z_one : Qc_of_Z 1 = 1.
Proof. apply Qc_is_canon. reflexivity. Qed.

Lemma div_one (a : num) : (a / ofZ 1)%num = a.
Proof.
  destruct a; try reflexivity. unfold ofZ. cbn [div].
  replace (Qc_of_Z 1 ?= 0) with Gt by reflexivity.
  f_equal. rewrite Qc_of_Z_one. field. discriminate.
Qed.

Lemma mul_one_r (a : num) : (a * ofZ 1)%num = a.
Proof.
  destruct a; try reflexivity. unfold ofZ. cbn [mul].
  f_equal. rewrite Qc_of_Z_one. ring.
Qed.

Lemma div_self (a : num) : isFin a -> a <> zero -> (a / a)%num = ofZ 1.
Proof.
  destruct a as [q| | |]; try contradiction. intros _ Hne.
  assert (q <> 0) as Hq by (intros ->; now apply Hne).
  rewrite (div_Fin _ _ Hq). unfold ofZ. f_equal.
  rewrite Qc_of_Z_one. now field.
Qed.

Lemma neg_zero : (- zero)%num = zero.
Proof. unfold zero. cbn [neg]. now rewrite Qcopp_0. Qed.

Lemma abs_fin (a : num) : isFin a -> isFin (abs a).
Proof.
  destruct a as [q| | |]; try contradiction. intros _. cbn [abs].
  now destruct (q ?= 0).
Qed.

(** The values that are not finite spread through the operations. *)
Lemma signedInf_not_fin (c : comparison) (flip : bool) :
  ~ isFin (signedInf c flip).
Proof. destruct c, flip; exact (fun H => H). Qed.

Lemma add_not_fin_l (a b : num) : ~ isFin a -> ~ isFin (a + b)%num.
Proof. destruct a, b; simpl; tauto. Qed.

Lemma mul_not_fin_l (a b : num) : ~ isFin a -> ~ isFin (a * b)%num.
Proof.
  destruct a, b; simpl; try tauto; intros _; apply signedInf_not_fin.
Qed.

Lemma mul_not_fin_r (a b : num) : ~ isFin b -> ~ isFin (a * b)%num.
Proof.
  destruct a, b; simpl; try tauto; intros _; apply signedInf_not_fin.
Qed.

Lemma div_zero_not_fin (a : num) : ~ isFin (a / zero)%num.
Proof.
  destruct a; unfold zero; cbn [div];
    replace (0 ?= 0) with Eq by reflexivity; try exact (fun H => H).
  apply signedInf_not_fin.
Qed.

End NumFacts.

(** ** Sums *)

Section Sums.

Context {A : Type}.

Lemma sumOf_map {B : Type} (f : B -> num) (g : A -> B) (l : list A) :
  sumOf f (map g l) = sumOf (fun x => f (g x)) l.
Proof.
  unfold sumOf. generalize zero. induction l as [|x l IH]; intros a; simpl.
  - reflexivity.
  - apply IH.
Qed.

Lemma sumOf_zero (f : A -> num) (l : list A) :
  Forall (fun x => f x = zero) l -> sumOf f l = zero.
Proof.
  unfold sumOf. induction l as [|x l IH]; intros H; cbn [fold_left].
  - reflexivity.
  - inversion H as [|? ? Hx Hl]; subst. rewrite Hx, add_zero_r. now apply IH.
Qed.

Lemma sumOf_ext (f g : A -> num) (l : list A) :
  Forall (fun x => f x = g x) l -> sumOf f l = sumOf g l.
Proof.
  unfold sumOf. generalize zero.
  induction l as [|x l IH]; intros a H; cbn [fold_left]; [reflexivity|].
  inversion H as [|? ? Hx Hl]; subst. rewrite Hx. now apply IH.
Qed.

Lemma sumOf_one (f : A -> num) (x : A) : sumOf f [x] = f x.
Proof. unfold sumOf. cbn [fold_left]. apply add_zero_l. Qed.

End Sums.

(** ** The records that open a pass *)

Lemma walletWithPnL_untouched (w : WalletData) : untouched (walletWithPnL w).
Proof. split; reflexivity. Qed.

Lemma untouched_map (ws : list WalletData) :
  Forall untouched (map walletWithPnL ws).
Proof.
  apply List.Forall_map, List.Forall_forall. intros w _.
  apply walletWithPnL_untouched.
Qed.

Lemma untouched_balanced (c : CalculatedWallet) : untouched c -> balanced c.
Proof.
  intros [Hz Hf]. unfold balanced. now rewrite Hz, add_zero_r.
Qed.

Lemma untouched_sum (W : list CalculatedWallet) :
  Forall untouched W -> sumOf redistributionAmount W = zero.
Proof.
  intros H. apply sumOf_zero. eapply List.Forall_impl; [|exact H].
  now intros c [Hz _].
Qed.

Lemma untouched_filter (f : CalculatedWallet -> bool)
    (W : list CalculatedWallet) :
  Forall untouched W -> Forall untouched (List.filter f W).
Proof.
  intros H. apply List.Forall_forall. intros c Hc.
  apply List.filter_In in Hc as [Hc _].
  exact (proj1 (List.Forall_forall _ _) H c Hc).
Qed.

Lemma wallets_kept (ws : list WalletData) :
  map wallet (map walletWithPnL ws) = ws.
Proof. rewrite map_map. apply map_id. Qed.

Lemma wallets_kept_by (f : CalculatedWallet -> CalculatedWallet)
    (ws : list WalletData) :
  (forall c, wallet (f c) = wallet c) ->
  map wallet (map f (map walletWithPnL ws)) = ws.
Proof.
  intros Hf. rewrite map_map. rewrite <- (wallets_kept ws) at 2.
  apply map_ext. intros c. apply Hf.
Qed.

Lemma Forall_filter_true {A : Type} (P : A -> Prop) (f : A -> bool) (l : list A) :
  Forall P l -> Forall (fun x => P x /\ f x = true) (List.filter f l).
Proof.
  induction 1 as [|x l Hx Hl IH]; simpl; [constructor|].
  destruct (f x) eqn:E; [constructor; auto | assumption].
Qed.

(** Updating the records of a list without changing their class commutes
    with the two filters. *)
Lemma losersOf_map (f g : CalculatedWallet -> CalculatedWallet)
    (l : list CalculatedWallet) :
  (forall c, isProfit (f c) = isProfit c) ->
  (forall c, isProfit c = false -> f c = g c) ->
  losersOf (map f l) = map g (losersOf l).
Proof.
  intros Hp Hg. unfold losersOf. induction l as [|c l IH]; [reflexivity|].
  cbn [map List.filter]. rewrite Hp.
  destruct (isProfit c) eqn:E; cbn [negb map].
  - exact IH.
  - now rewrite IH, (Hg c E).
Qed.

Lemma winnersOf_map (f g : CalculatedWallet -> CalculatedWallet)
    (l : list CalculatedWallet) :
  (forall c, isProfit (f c) = isProfit c) ->
  (forall c, isProfit c = true -> f c = g c) ->
  winnersOf (map f l) = map g (winnersOf l).
Proof.
  intros Hp Hg. unfold winnersOf. induction l as [|c l IH]; [reflexivity|].
  cbn [map List.filter]. rewrite Hp.
  destruct (isProfit c) eqn:E; cbn [map].
  - now rewrite IH, (Hg c E).
  - exact IH.
Qed.

(** ** What a pass stores *)

Section Stored.

Import PnLCalculator.

(** The pool-capped pass, with its two outcomes spelled out. *)
Lemma calculatePnL_stores (mode : string) (pcts : gmap string num)
    (ws : list WalletData) :
  ws <> [] ->
  let W := map walletWithPnL ws in
  let settle :=
    settleLoser mode pcts (poolOf W) (totalLossOf W) (length (losersOf W)) in
  calculatePnL mode pcts ws
  = Some (if nothingToRedistribute W then W
          else map (fun c =>
                      if isProfit c
                      then settleWinner
                             (sumOf redistributionAmount (map settle (losersOf W)))
                             (totalProfitOf W) c
                      else settle c) W).
Proof.
  intros Hne. destruct ws as [|w ws]; [congruence|].
  unfold calculatePnL, nothingToRedistribute, poolOf.
  cbn [length Nat.eqb]. cbv zeta.
  now destruct (isZero _ || isZero _).
Qed.

Lemma calculatePnL_redistributed (mode : string) (pcts : gmap string num)
    (ws : list WalletData) :
  ws <> [] ->
  calculatePnL mode pcts ws
  = Some (if nothingToRedistribute (map walletWithPnL ws)
          then map walletWithPnL ws
          else redistributed mode pcts (map walletWithPnL ws)).
Proof. intros Hne. exact (calculatePnL_stores mode pcts ws Hne). Qed.

Lemma breakEven_stores (ws : list WalletData) :
  ws <> [] ->
  let W := map walletWithPnL ws in
  BreakEvenCalculator.calculatePnL ws
  = Some (if nothingToRedistribute W then W
          else map (fun c =>
                      if isProfit c
                      then BreakEvenCalculator.settleWinner c
                      else BreakEvenCalculator.settleLoser
                             (BreakEvenCalculator.totalRedistributableProfitOf
                                (winnersOf W))
                             (length (losersOf W)) c) W).
Proof.
  intros Hne. destruct ws as [|w ws]; [congruence|].
  unfold BreakEvenCalculator.calculatePnL, nothingToRedistribute.
  cbn [length Nat.eqb]. cbv zeta.
  now destruct (isZero _ || isZero _).
Qed.

(** An empty partition closes the gate. *)
Lemma gate_empty_partition (W : list CalculatedWallet) :
  winnersOf W = [] \/ losersOf W = [] -> nothingToRedistribute W = true.
Proof.
  unfold nothingToRedistribute, totalProfitOf, totalLossOf.
  intros [-> | ->]; cbn [sumOf fold_left].
  - reflexivity.
  - apply orb_true_iff. right. reflexivity.
Qed.

Lemma gate_open (W : list CalculatedWallet) :
  nothingToRedistribute W = false ->
  totalProfitOf W <> zero /\ totalLossOf W <> zero.
Proof.
  unfold nothingToRedistribute. intros H. apply orb_false_iff in H.
  destruct H as [H1 H2]. split; now apply isZero_false.
Qed.

End Stored.

(** ** The records of a pool-capped pass that redistributes *)

Section Records.

Import PnLCalculator.

Variable mode : string.
Variable pcts : gmap string num.

Lemma redistributed_wallets (ws : list WalletData) :
  map wallet (redistributed mode pcts (map walletWithPnL ws)) = ws.
Proof.
  unfold redistributed. apply wallets_kept_by.
  intros c. now destruct (isProfit c).
Qed.

Lemma redistributed_balanced (W : list CalculatedWallet) :
  Forall balanced (redistributed mode pcts W).
Proof.
  unfold redistributed. apply List.Forall_map, List.Forall_forall.
  intros c _. unfold balanced. now destruct (isProfit c).
Qed.

Lemma redistributed_losers (W : list CalculatedWallet) :
  losersOf (redistributed mode pcts W)
  = map (settleLoser mode pcts (poolOf W) (totalLossOf W) (length (losersOf W)))
        (losersOf W).
Proof.
  unfold redistributed. apply losersOf_map.
  - intros c. now destruct (isProfit c) eqn:E.
  - intros c Hp. now rewrite Hp.
Qed.

Lemma redistributed_winners (W : list CalculatedWallet) :
  winnersOf (redistributed mode pcts W)
  = map (settleWinner (totalRedistributionOutOf mode pcts W) (totalProfitOf W))
        (winnersOf W).
Proof.
  unfold redistributed. apply winnersOf_map.
  - intros c. now destruct (isProfit c) eqn:E.
  - intros c Hp. now rewrite Hp.
Qed.

(** What the losers of the stored array hold is [totalRedistributionOut]. *)
Lemma redistributed_given (W : list CalculatedWallet) :
  sumOf redistributionAmount (losersOf (redistributed mode pcts W))
  = totalRedistributionOutOf mode pcts W.
Proof. now rewrite redistributed_losers. Qed.

Lemma redistributed_loser (W : list CalculatedWallet) (c : CalculatedWallet) :
  In c (redistributed mode pcts W) -> isProfit c = false ->
  loserShare mode pcts W c.
Proof.
  unfold redistributed. intros Hin Hp.
  apply in_map_iff in Hin as (c0 & <- & _).
  destruct (isProfit c0) eqn:Hp0; [cbn in Hp; congruence|].
  unfold loserShare, settleLoser.
  cbn [redistributionAmount rawPnL]. unfold customPercentageOf. cbn [wallet].
  split; [|split]; intros ->; reflexivity.
Qed.

Lemma redistributed_winner (W : list CalculatedWallet) (c : CalculatedWallet) :
  In c (redistributed mode pcts W) -> isProfit c = true ->
  redistributionAmount c
  = ((- totalRedistributionOutOf mode pcts W)
     * (rawPnL c / totalProfitOf W))%num.
Proof.
  unfold redistributed. intros Hin Hp.
  apply in_map_iff in Hin as (c0 & <- & _).
  destruct (isProfit c0) eqn:Hp0; [reflexivity|].
  cbn in Hp. congruence.
Qed.

(** A single loser under "equal", or under "proportional" with a finite
    raw PnL, is given the whole pool. *)
Lemma single_loser_given (W : list CalculatedWallet) (c : CalculatedWallet) :
  totalLossOf W <> zero ->
  losersOf W = [c] ->
  wholePoolPolicy mode c ->
  totalRedistributionOutOf mode pcts W = poolOf W.
Proof.
  intros HL Hone Hmode. unfold totalRedistributionOutOf.
  rewrite Hone. cbn [map length]. rewrite sumOf_one.
  unfold settleLoser. cbn [redistributionAmount].
  destruct Hmode as [-> | [-> Hfin]].
  - cbn [String.eqb Ascii.eqb Bool.eqb]. apply div_one.
  - cbn [String.eqb Ascii.eqb Bool.eqb].
    assert (totalLossOf W = abs (rawPnL c)) as EL.
    { unfold totalLossOf. now rewrite Hone, sumOf_one. }
    rewrite EL in HL |- *.
    rewrite (div_self _ (abs_fin _ Hfin) HL). apply mul_one_r.
Qed.

End Records.

(** ** The records of a break-even pass that redistributes *)

Section BreakEvenRecords.

Import BreakEvenCalculator.

Lemma settleLoser_balanced (total : num) (k : nat) (c : CalculatedWallet) :
  balanced (settleLoser total k c).
Proof. reflexivity. Qed.

Lemma profitToRedistribute_untouched (c : CalculatedWallet) :
  untouched c -> profitToRedistribute c = profitAbovePrincipal c.
Proof.
  intros [_ Hf]. unfold profitToRedistribute, profitAbovePrincipal.
  now rewrite Hf.
Qed.

Lemma totalRedistributableProfit_untouched (l : list CalculatedWallet) :
  Forall untouched l ->
  totalRedistributableProfitOf l = sumOf profitAbovePrincipal l.
Proof.
  intros H. unfold totalRedistributableProfitOf. apply sumOf_ext.
  eapply List.Forall_impl; [|exact H].
  intros c Hc. now apply profitToRedistribute_untouched.
Qed.

Lemma settleWinner_atBreakEven (c : CalculatedWallet) :
  untouched c -> atBreakEven (settleWinner c).
Proof.
  intros Hc. unfold atBreakEven, settleWinner.
  cbn [finalBalance redistributionAmount].
  rewrite (profitToRedistribute_untouched c Hc).
  split; reflexivity.
Qed.

End BreakEvenRecords.

(** ** Position reconstruction: the loops end *)

Section Loops.

Import TokenService.

Lemma while_terminates {S : Type} (cond : S -> bool) (body : S -> S)
    (measure : S -> nat) :
  (forall s, cond s = true -> cond (body s) = true ->
             (measure (body s) < measure s)%nat) ->
  forall fuel s,
    (cond s = true -> (measure s < fuel)%nat) ->
    is_Some (while fuel cond body s).
Proof.
  intros Hdec. induction fuel as [|fuel IH]; intros s Hfuel; cbn [while].
  - destruct (cond s) eqn:E; [|eauto]. specialize (Hfuel eq_refl). lia.
  - destruct (cond s) eqn:E; [|eauto]. apply IH. intros E'.
    specialize (Hfuel eq_refl). specialize (Hdec s E E'). lia.
Qed.

Lemma skipCond_bound (buy : Trade) (m : Matching) :
  skipCond buy m = true -> (m_sellIndex m < length (m_sells m))%nat.
Proof.
  unfold skipCond. destruct (m_sells m !! m_sellIndex m) eqn:E; [|discriminate].
  intros _. now apply lookup_lt_Some in E.
Qed.

Lemma skip_terminates (buy : Trade) (m : Matching) :
  is_Some (while (skipFuel m) (skipCond buy) skipBody m).
Proof.
  apply (while_terminates _ _ skipMeasure).
  - intros s _ H. apply skipCond_bound in H. unfold skipMeasure in *.
    cbn [skipBody m_sells m_sellIndex] in *. lia.
  - intros H. apply skipCond_bound in H. unfold skipMeasure, skipFuel. lia.
Qed.

Lemma matchCond_bound (m : Matching) :
  matchCond m = true ->
  (buyAmount m >? zero)%num = true /\
  (m_sellIndex m < length (m_sells m))%nat.
Proof.
  unfold matchCond. intros H. apply andb_true_iff in H as [H1 H2].
  split; [assumption | now apply bool_decide_eq_true in H2].
Qed.

Lemma sub_self_Fin (y : Qc) : isZero (Fin y - Fin y)%num = true.
Proof. cbn [sub neg add]. apply isZero_Fin. apply Qcplus_opp_r. Qed.

Lemma gtb_sub_self_Fin (x : Qc) : (Fin x - Fin x >? zero)%num = false.
Proof.
  cbn [sub neg add]. rewrite Qcplus_opp_r. apply gtb_Fin_zero_false.
  apply Qcle_refl.
Qed.

(** An iteration of the second loop that neither ends the loop nor
    retires the sell has turned the sell's amount into NaN, from
    something else. *)
Lemma stuck_sell_is_NaN (b s : num) :
  (b >? zero)%num = true ->
  (b - min b s >? zero)%num = true ->
  isZero (s - min b s)%num = false ->
  isNaN s = false /\ isNaN (s - min b s)%num = true.
Proof.
  intros Hb Hb' Hs'.
  destruct b as [x| | |], s as [y| | |]; try discriminate Hb;
    try (split; reflexivity).
  - (* finite buy, finite sell *)
    rewrite min_Fin in *. unfold Qcmin in *. destruct (x ?= y)%Qc.
    + now rewrite gtb_sub_self_Fin in Hb'.
    + now rewrite gtb_sub_self_Fin in Hb'.
    + now rewrite sub_self_Fin in Hs'.
  - (* finite buy, infinite sell *)
    change (min (Fin x) PInf) with (Fin x) in Hb'.
    now rewrite gtb_sub_self_Fin in Hb'.
  - discriminate Hb'.
  - (* infinite buy, finite sell *)
    change (min PInf (Fin y)) with (Fin y) in Hs'.
    now rewrite sub_self_Fin in Hs'.
  - discriminate Hb'.
Qed.

Lemma match_decreases (m : Matching) :
  matchCond m = true -> matchCond (matchBody m) = true ->
  (matchMeasure (matchBody m) < matchMeasure m)%nat.
Proof.
  intros Hc Hc'. destruct (matchCond_bound m Hc) as [Hb Hi].
  destruct (matchCond_bound _ Hc') as [Hb' Hi'].
  unfold matchBody in *.
  destruct (lookup_lt_is_Some_2 _ _ Hi) as [sell Esell].
  rewrite Esell in *. cbn [buyAmount m_sells m_sellIndex amount] in *.
  unfold matchMeasure. cbn [m_sells m_sellIndex]. rewrite Esell.
  rewrite length_insert in *.
  destruct (isZero (amount sell - min (buyAmount m) (amount sell))%num) eqn:Ez.
  - destruct (_ !! Datatypes.S (m_sellIndex m)) as [next|];
      destruct (isNaN (amount sell)); try destruct (isNaN (amount next)); lia.
  - destruct (stuck_sell_is_NaN _ _ Hb Hb' Ez) as [Hn Hn'].
    rewrite list_lookup_insert_eq by assumption. cbn [amount].
    rewrite Hn, Hn'. lia.
Qed.

Lemma match_terminates (m : Matching) :
  is_Some (while (matchFuel m) matchCond matchBody m).
Proof.
  apply (while_terminates _ _ matchMeasure).
  - apply match_decreases.
  - intros H. destruct (matchCond_bound m H) as [_ Hi].
    unfold matchMeasure, matchFuel. lia.
Qed.

Section WithOracle.

Variable priceAt : Z -> option PriceSample.

Lemma buyStep_total (st : Ledger) (buy : Trade) :
  is_Some (buyStep priceAt st buy).
Proof.
  unfold buyStep.
  destruct (skip_terminates buy
              {| buyAmount := amount buy; m_sells := sells st;
                 m_sellIndex := sellIndex st |}) as [m1 ->].
  cbn [mbind option_bind].
  destruct (match_terminates m1) as [m2 ->]. cbn [mbind option_bind].
  destruct (buyAmount m2 >? zero)%num; eauto.
Qed.

Lemma buyLoop_total (buys : list Trade) (st : Ledger) :
  is_Some (buyLoop priceAt st buys).
Proof.
  revert st. induction buys as [|buy rest IH]; intros st; cbn [buyLoop].
  - eauto.
  - destruct (buyStep_total st buy) as [st' ->]. cbn [mbind option_bind].
    apply IH.
Qed.

End WithOracle.

Lemma insertByTimestamp_nonempty (x : Trade) (l : list Trade) :
  insertByTimestamp x l <> [].
Proof. destruct l as [|y l]; cbn; [|destruct (_ <=? _)]; discriminate. Qed.

Lemma sortByTimestamp_nonempty (l : list Trade) :
  l <> [] -> sortByTimestamp l <> [].
Proof.
  destruct l as [|x l]; [congruence|]. intros _.
  apply insertByTimestamp_nonempty.
Qed.

End Loops.

(** ** Position reconstruction: evaluation *)

Section Reconstruct.

Import TokenService.

Variable priceAt : Z -> option PriceSample.

(** One buy, given what the two inner loops end in. *)
Lemma buyStep_residual (st : Ledger) (buy : Trade) (m1 m2 : Matching) :
  while (skipFuel {| buyAmount := amount buy; m_sells := sells st;
                     m_sellIndex := sellIndex st |})
        (skipCond buy) skipBody
        {| buyAmount := amount buy; m_sells := sells st;
           m_sellIndex := sellIndex st |} = Some m1 ->
  while (matchFuel m1) matchCond matchBody m1 = Some m2 ->
  (buyAmount m2 >? zero)%num = true ->
  buyStep priceAt st buy
  = Some {| netTokens := (netTokens st + buyAmount m2)%num;
            investedUSD :=
              (investedUSD st
               + buyAmount m2 * priceOrZero (priceAt (timestamp buy)))%num;
            sells := m_sells m2;
            sellIndex := m_sellIndex m2 |}.
Proof.
  intros E1 E2 Hr. unfold buyStep. rewrite E1. cbn [mbind option_bind].
  rewrite E2. cbn [mbind option_bind]. now rewrite Hr.
Qed.

Lemma buyStep_consumed (st : Ledger) (buy : Trade) (m1 m2 : Matching) :
  while (skipFuel {| buyAmount := amount buy; m_sells := sells st;
                     m_sellIndex := sellIndex st |})
        (skipCond buy) skipBody
        {| buyAmount := amount buy; m_sells := sells st;
           m_sellIndex := sellIndex st |} = Some m1 ->
  while (matchFuel m1) matchCond matchBody m1 = Some m2 ->
  (buyAmount m2 >? zero)%num = false ->
  buyStep priceAt st buy
  = Some {| netTokens := netTokens st;
            investedUSD := investedUSD st;
            sells := m_sells m2;
            sellIndex := m_sellIndex m2 |}.
Proof.
  intros E1 E2 Hr. unfold buyStep. rewrite E1. cbn [mbind option_bind].
  rewrite E2. cbn [mbind option_bind]. now rewrite Hr.
Qed.

(** A successful run, given the first buy and the end of the loop. *)
Lemma fetchWalletData_success (walletAddress contractAddress : string)
    (currentMarketCap : num) (now : Z) (transactions : list Transaction)
    (firstBuy : Trade) (st : Ledger) :
  let buys := sortByTimestamp (collectBuys walletAddress contractAddress transactions) in
  let sells := sortByTimestamp (collectSells walletAddress contractAddress transactions) in
  head buys = Some firstBuy ->
  buyLoop priceAt (initialLedger sells) buys = Some st ->
  fetchWalletData priceAt walletAddress contractAddress currentMarketCap now
    transactions
  = Some (Success
      {| investedAmount := investedUSD st;
         entryMarketCap :=
           marketCapOr currentMarketCap (priceAt (timestamp firstBuy));
         exitMarketCap :=
           marketCapOr currentMarketCap (priceAt (exitTimestampOf sells now)) |}).
Proof.
  intros buys sells Hhead Hloop. unfold fetchWalletData.
  destruct (collectBuys walletAddress contractAddress transactions)
    as [|b bs] eqn:Ebuys.
  - discriminate Hhead.
  - cbn [length Nat.eqb]. fold buys. rewrite Hhead.
    fold sells. rewrite Hloop. reflexivity.
Qed.

Lemma fetchWalletData_no_buys (walletAddress contractAddress : string)
    (currentMarketCap : num) (now : Z) (transactions : list Transaction) :
  collectBuys walletAddress contractAddress transactions = [] ->
  fetchWalletData priceAt walletAddress contractAddress currentMarketCap now
    transactions
  = Some (Failure "No buy (IN) transactions found for this wallet/token.").
Proof. intros E. unfold fetchWalletData. now rewrite E. Qed.

Lemma head_sorted (l : list Trade) :
  l <> [] -> exists firstBuy, head (sortByTimestamp l) = Some firstBuy.
Proof.
  intros H. apply sortByTimestamp_nonempty in H.
  destruct (sortByTimestamp l) as [|x l']; [congruence | eauto].
Qed.

End Reconstruct.

(** The worked example: the loop over the two buys. *)
Lemma example_ledger (priceAt : Z -> option TokenService.PriceSample) :
  TokenService.buyLoop priceAt
    (TokenService.initialLedger [trade 120 5]) [trade 100 0; trade 50 10]
  = Some {| TokenService.netTokens := (zero + ofZ 50)%num;
            TokenService.investedUSD :=
              (zero + ofZ 50 * TokenService.priceOrZero (priceAt 10))%num;
            TokenService.sells := [trade 20 5];
            TokenService.sellIndex := 1 |}.
Proof.
  cbn [TokenService.buyLoop].
  (* first buy: the sell at t=5 is not passed over, and consumes it whole *)
  rewrite (buyStep_consumed priceAt _ _
             {| TokenService.buyAmount := ofZ 100;
                TokenService.m_sells := [trade 120 5];
                TokenService.m_sellIndex := 0 |}
             {| TokenService.buyAmount := ofZ 0;
                TokenService.m_sells := [trade 20 5];
                TokenService.m_sellIndex := 0 |});
    [| by_evaluation | by_evaluation | vm_compute; reflexivity ].
  cbn [mbind option_bind TokenService.buyLoop TokenService.netTokens
       TokenService.investedUSD TokenService.initialLedger
       TokenService.m_sells TokenService.m_sellIndex].
  (* second buy: the sell at t=5 is passed over, nothing is left to match *)
  rewrite (buyStep_residual priceAt _ _
             {| TokenService.buyAmount := ofZ 50;
                TokenService.m_sells := [trade 20 5];
                TokenService.m_sellIndex := 1 |}
             {| TokenService.buyAmount := ofZ 50;
                TokenService.m_sells := [trade 20 5];
                TokenService.m_sellIndex := 1 |});
    [| by_evaluation | by_evaluation | vm_compute; reflexivity ].
  reflexivity.
Qed.

(** ** Zero-valued samples *)

Section ZeroSamples.

Import TokenService.

Lemma truthy_zero : truthy zero = false.
Proof.
  unfold truthy, zero. now rewrite (proj2 (isZero_true (Fin 0%Qc)) eq_refl).
Qed.

Lemma marketCapOr_zero (current : num) (sample : PriceSample) :
  marketCap sample = zero ->
  marketCapOr current (Some sample) = current.
Proof. intros E. unfold marketCapOr. now rewrite E, truthy_zero. Qed.

Lemma priceOrZero_zero (sample : PriceSample) :
  price sample = zero -> priceOrZero (Some sample) = zero.
Proof. intros E. unfold priceOrZero, orElse. now rewrite E, truthy_zero. Qed.

Lemma while_invariant {S : Type} (cond : S -> bool) (body : S -> S)
    (inv : S -> Prop) :
  (forall s, inv s -> cond s = true -> inv (body s)) ->
  forall fuel s s', inv s -> while fuel cond body s = Some s' -> inv s'.
Proof.
  intros Hstep. induction fuel as [|fuel IH]; intros s s' Hs; cbn [while];
    destruct (cond s) eqn:E; try discriminate.
  - now intros [= <-].
  - apply IH. now apply Hstep.
  - now intros [= <-].
Qed.

Lemma skipBody_finite (m : Matching) :
  finiteMatching m -> finiteMatching (skipBody m).
Proof. now intros [H1 H2]. Qed.

Lemma matchBody_finite (m : Matching) :
  finiteMatching m -> finiteMatching (matchBody m).
Proof.
  intros [Hb Hs]. unfold matchBody.
  destruct (m_sells m !! m_sellIndex m) as [sell|] eqn:E; [|now split].
  assert (finiteTrade sell) as Hsell.
  { rewrite List.Forall_forall in Hs. apply Hs.
    apply list_elem_of_In. eapply list_elem_of_lookup_2, E. }
  destruct (isFin_inv _ Hb) as [x Ex], (isFin_inv _ Hsell) as [y Ey].
  unfold finiteMatching. cbn [buyAmount m_sells]. rewrite Ex, Ey, min_Fin.
  split; [exact I|]. apply Forall_insert; [assumption | exact I].
Qed.

(** With finite amounts, what is left of a buy is finite. *)
Lemma residual_finite (buy : Trade) (m0 m1 m2 : Matching) :
  finiteMatching m0 ->
  while (skipFuel m0) (skipCond buy) skipBody m0 = Some m1 ->
  while (matchFuel m1) matchCond matchBody m1 = Some m2 ->
  finiteMatching m2.
Proof.
  intros H0 E1 E2.
  eapply (while_invariant _ _ finiteMatching); [| |exact E2].
  - intros s Hs _. now apply matchBody_finite.
  - eapply (while_invariant _ _ finiteMatching); [| |exact E1].
    + intros s Hs _. now apply skipBody_finite.
    + exact H0.
Qed.

Variable priceAt : Z -> option PriceSample.

(** A buy priced by a sample of price 0 is booked as under a miss, and
    adds nothing when the amounts are finite. *)
Lemma buyStep_zero_price (st : Ledger) (buy : Trade) (sample : PriceSample) :
  priceAt (timestamp buy) = Some sample ->
  price sample = zero ->
  buyStep priceAt st buy = buyStep noPrice st buy /\
  (isFin (amount buy) -> Forall finiteTrade (sells st) ->
   exists st',
     buyStep priceAt st buy = Some st' /\ investedUSD st' = investedUSD st).
Proof.
  intros Hs Hp.
  assert (priceOrZero (priceAt (timestamp buy)) = zero) as Hzero.
  { rewrite Hs. now apply priceOrZero_zero. }
  set (m0 := {| buyAmount := amount buy; m_sells := sells st;
                m_sellIndex := sellIndex st |}).
  destruct (skip_terminates buy m0) as [m1 E1].
  destruct (match_terminates m1) as [m2 E2].
  destruct (buyAmount m2 >? zero)%num eqn:Hr.
  - rewrite (buyStep_residual priceAt st buy m1 m2 E1 E2 Hr).
    rewrite (buyStep_residual noPrice st buy m1 m2 E1 E2 Hr).
    rewrite Hzero. split; [reflexivity|].
    intros Hbuy Hsells. eexists. split; [reflexivity|].
    cbn [investedUSD].
    destruct (residual_finite buy m0 m1 m2 (conj Hbuy Hsells) E1 E2) as [Hf _].
    destruct (isFin_inv _ Hf) as [r ->]. unfold zero. cbn [mul].
    rewrite Qcmult_0_r. apply add_zero_r.
  - rewrite (buyStep_consumed priceAt st buy m1 m2 E1 E2 Hr).
    rewrite (buyStep_consumed noPrice st buy m1 m2 E1 E2 Hr).
    split; [reflexivity|]. intros _ _. eexists. split; reflexivity.
Qed.

(** The run reads the lookup through [priceOrZero] and [marketCapOr]
    only. *)
Lemma buyStep_ext (priceAt' : Z -> option PriceSample) (st : Ledger)
    (buy : Trade) :
  priceOrZero (priceAt (timestamp buy)) = priceOrZero (priceAt' (timestamp buy)) ->
  buyStep priceAt st buy = buyStep priceAt' st buy.
Proof.
  intros E. unfold buyStep.
  destruct (while _ (skipCond buy) skipBody _) as [m1|]; [|reflexivity].
  cbn [mbind option_bind].
  destruct (while _ matchCond matchBody m1) as [m2|]; [|reflexivity].
  cbn [mbind option_bind]. now rewrite E.
Qed.

Lemma buyLoop_ext (priceAt' : Z -> option PriceSample) (buys : list Trade)
    (st : Ledger) :
  (forall t, priceOrZero (priceAt t) = priceOrZero (priceAt' t)) ->
  buyLoop priceAt st buys = buyLoop priceAt' st buys.
Proof.
  intros E. revert st. induction buys as [|buy rest IH]; intros st;
    cbn [buyLoop]; [reflexivity|].
  rewrite (buyStep_ext priceAt' st buy (E _)).
  destruct (buyStep priceAt' st buy) as [st'|]; [|reflexivity].
  cbn [mbind option_bind]. apply IH.
Qed.

Lemma fetchWalletData_ext (priceAt' : Z -> option PriceSample)
    (walletAddress contractAddress : string) (currentMarketCap : num)
    (now : Z) (transactions : list Transaction) :
  (forall t, priceOrZero (priceAt t) = priceOrZero (priceAt' t)) ->
  (forall t, marketCapOr currentMarketCap (priceAt t)
             = marketCapOr currentMarketCap (priceAt' t)) ->
  fetchWalletData priceAt walletAddress contractAddress currentMarketCap now
    transactions
  = fetchWalletData priceAt' walletAddress contractAddress currentMarketCap
      now transactions.
Proof.
  intros Ep Em. unfold fetchWalletData.
  destruct (length _ =? 0)%nat; [reflexivity|].
  destruct (head _) as [firstBuy|]; [|reflexivity].
  now rewrite (buyLoop_ext priceAt' _ _ Ep), !Em.
Qed.

Lemma missWhenZero_price (t : Z) :
  priceOrZero (priceAt t) = priceOrZero (missWhenZero priceAt t).
Proof.
  unfold missWhenZero. destruct (priceAt t) as [sample|]; [|reflexivity].
  destruct (isZero (price sample)) eqn:E; [|reflexivity].
  apply isZero_true in E.
  destruct (isZero (marketCap sample)); [|reflexivity].
  now apply priceOrZero_zero.
Qed.

Lemma missWhenZero_marketCap (current : num) (t : Z) :
  marketCapOr current (priceAt t)
  = marketCapOr current (missWhenZero priceAt t).
Proof.
  unfold missWhenZero. destruct (priceAt t) as [sample|]; [|reflexivity].
  destruct (isZero (marketCap sample)) eqn:E.
  - apply isZero_true in E.
    rewrite andb_true_r. rewrite (marketCapOr_zero current sample E).
    now destruct (isZero (price sample)); [|rewrite marketCapOr_zero].
  - now rewrite andb_false_r.
Qed.

End ZeroSamples.

(** ** Position reconstruction: the IN events *)

Section InEvents.

Import TokenService.

(** The buys that are collected are the IN events of the stream. *)
Lemma collectBuys_inEvent (walletAddress contractAddress : string)
    (transactions : list Transaction) :
  hasInEvent walletAddress contractAddress transactions <->
  collectBuys walletAddress contractAddress transactions <> [].
Proof.
  unfold hasInEvent, collectBuys, collect. split.
  - intros (tx & transfers & transfer & Htx & Ets & Hin & Hm & Ht) E.
    assert (In (tradeOf tx transfer) []) as Habs; [|destruct Habs].
    rewrite <- E. apply in_flat_map. exists tx. split; [exact Htx|].
    rewrite Ets. apply in_flat_map. exists transfer. split; [exact Hin|].
    rewrite Hm, Ht, !String.eqb_refl. now left.
  - intros Hne.
    destruct (flat_map _ transactions) as [|x l] eqn:E; [congruence|].
    assert (In x (x :: l)) as Hx by now left.
    rewrite <- E in Hx. apply in_flat_map in Hx as (tx & Htx & Hx).
    destruct (tokenTransfers tx) as [transfers|] eqn:Ets; [|destruct Hx].
    apply in_flat_map in Hx as (transfer & Hin & Hx).
    destruct (String.eqb (mint transfer) contractAddress) eqn:Em;
      [|destruct Hx].
    destruct (String.eqb (toUserAccount transfer) walletAddress) eqn:Et;
      [|destruct Hx].
    apply String.eqb_eq in Em, Et.
    exists tx, transfers, transfer. repeat split; assumption.
Qed.

End InEvents.

(** * The claims *)

(** ** Position reconstructor *)

(** C9.  [fetchWalletData] answers with the "No buy (IN) transactions"
    failure when no transaction of the stream carries a transfer of the
    mint to the wallet, and with a position (investedAmount,
    entryMarketCap, exitMarketCap) as soon as one does, whatever the
    other transfers are and whatever the price lookup answers; the inner
    loops always end. *)
Theorem no_buy_activity
    (priceAt : Z -> option TokenService.PriceSample)
    (walletAddress contractAddress : string) (currentMarketCap : num)
    (now : Z) (transactions : list TokenService.Transaction) :
  let result :=
    TokenService.fetchWalletData priceAt walletAddress contractAddress
      currentMarketCap now transactions in
  (~ hasInEvent walletAddress contractAddress transactions ->
   result
   = Some (TokenService.Failure
             "No buy (IN) transactions found for this wallet/token.")) /\
  (hasInEvent walletAddress contractAddress transactions ->
   exists data, result = Some (TokenService.Success data)).
Proof.
  cbv zeta. split.
  - intros Hnone. apply fetchWalletData_no_buys.
    destruct (TokenService.collectBuys walletAddress contractAddress
                transactions) as [|b bs] eqn:Ebuys; [reflexivity|].
    exfalso. apply Hnone. apply collectBuys_inEvent.
    rewrite Ebuys. discriminate.
  - intros Hsome. apply collectBuys_inEvent in Hsome as Hne.
    destruct (head_sorted _ Hne) as [firstBuy Hhead].
    destruct (buyLoop_total priceAt
                (TokenService.sortByTimestamp
                   (TokenService.collectBuys walletAddress contractAddress
                      transactions))
                (TokenService.initialLedger
                   (TokenService.sortByTimestamp
                      (TokenService.collectSells walletAddress contractAddress
                         transactions)))) as [st Hst].
    eexists.
    apply (fetchWalletData_success priceAt _ _ _ _ _ firstBuy st Hhead Hst).
Qed.

Lemma no_buy_activity_witness :
  (exists data,
     TokenService.fetchWalletData flatPrice "W" "M" (ofZ 1000) 20
       exampleTransactions = Some (TokenService.Success data)) /\
  TokenService.fetchWalletData flatPrice "W" "M" (ofZ 1000) 20
    sellOnlyTransactions
  = Some (TokenService.Failure
            "No buy (IN) transactions found for this wallet/token.").
Proof.
  split.
  - apply (proj2 (no_buy_activity flatPrice "W" "M" (ofZ 1000) 20
                    exampleTransactions)).
    exists {| TokenService.tokenTransfers := Some [transferIn 100];
              TokenService.tx_timestamp := 0 |}, [transferIn 100],
           (transferIn 100).
    split; [left; reflexivity|]. split; [reflexivity|].
    split; [left; reflexivity|]. split; reflexivity.
  - apply (proj1 (no_buy_activity flatPrice "W" "M" (ofZ 1000) 20
                    sellOnlyTransactions)).
    intros (tx & transfers & transfer & Htx & Ets & Hin & Hm & Ht).
    destruct Htx as [<- | [<- | [<- | []]]]; cbn in Ets;
      try discriminate Ets; injection Ets as <-;
      destruct Hin as [<- | []]; cbn in Hm, Ht; discriminate.
Defined.

(** C1, as the code has it.  On buys [(100 @ 0), (50 @ 10)] and the sell
    (120 @ 5), whatever the price lookup answers: the first buy is consumed
    whole by the sell, which keeps 20 units; the sell is then passed over
    at the second buy, because 5 <= 10, and its 20 units are never
    matched; the second buy keeps its 50 units, priced at the price read
    at t=10, so that investedAmount is 50 times that price. *)
Theorem fifo_example
    (priceAt : Z -> option TokenService.PriceSample)
    (currentMarketCap : num) (now : Z) :
  TokenService.sortByTimestamp
    (TokenService.collectBuys "W" "M" exampleTransactions)
  = [trade 100 0; trade 50 10] /\
  TokenService.sortByTimestamp
    (TokenService.collectSells "W" "M" exampleTransactions)
  = [trade 120 5] /\
  (exists st,
     TokenService.buyLoop priceAt
       (TokenService.initialLedger [trade 120 5]) [trade 100 0; trade 50 10]
     = Some st /\
     TokenService.netTokens st = ofZ 50 /\
     TokenService.sells st = [trade 20 5] /\
     TokenService.sellIndex st = 1%nat) /\
  exists data,
    TokenService.fetchWalletData priceAt "W" "M" currentMarketCap now
      exampleTransactions = Some (TokenService.Success data) /\
    TokenService.investedAmount data
    = (ofZ 50 * TokenService.priceOrZero (priceAt 10))%num.
Proof.
  assert (TokenService.sortByTimestamp
            (TokenService.collectBuys "W" "M" exampleTransactions)
          = [trade 100 0; trade 50 10]) as Ebuys by by_evaluation.
  assert (TokenService.sortByTimestamp
            (TokenService.collectSells "W" "M" exampleTransactions)
          = [trade 120 5]) as Esells by by_evaluation.
  split; [exact Ebuys|]. split; [exact Esells|]. split.
  - eexists. split; [apply example_ledger|].
    cbn [TokenService.netTokens TokenService.sells TokenService.sellIndex].
    rewrite add_zero_l. repeat split.
  - eexists. split.
    + apply (fetchWalletData_success priceAt "W" "M" currentMarketCap now
               exampleTransactions (trade 100 0)).
      * now rewrite Ebuys.
      * rewrite Ebuys, Esells. apply example_ledger.
    + cbn [TokenService.investedAmount TokenService.investedUSD].
      apply add_zero_l.
Qed.

(** C1 fails as stated: with price 2 at every timestamp the example gives
    investedAmount 100, that is 50 * 2, and not 30 * 2. *)
Lemma fifo_example_counterexample :
  exists data,
    TokenService.fetchWalletData flatPrice "W" "M" (ofZ 1000) 20
      exampleTransactions = Some (TokenService.Success data) /\
    TokenService.priceOrZero (flatPrice 10) = ofZ 2 /\
    TokenService.investedAmount data = ofZ 100 /\
    TokenService.investedAmount data
    <> (ofZ 30 * TokenService.priceOrZero (flatPrice 10))%num.
Proof.
  exists {| TokenService.investedAmount := ofZ 100;
            TokenService.entryMarketCap := ofZ 1000;
            TokenService.exitMarketCap := ofZ 1000 |}.
  repeat split; by_evaluation.
Qed.

(** C10.  A sample whose market cap is 0 at the entry or at the exit
    timestamp leaves the current market cap in place, as a miss does; a
    buy priced by a sample whose price is 0 is booked exactly as under a
    miss, adding nothing to investedAmount when the amounts are finite;
    and the whole run is the same when every sample with price 0 and
    market cap 0 is replaced by a miss. *)
Theorem zero_sample_is_a_miss
    (priceAt : Z -> option TokenService.PriceSample)
    (walletAddress contractAddress : string) (currentMarketCap : num)
    (now : Z) (transactions : list TokenService.Transaction) :
  let buys :=
    TokenService.sortByTimestamp
      (TokenService.collectBuys walletAddress contractAddress transactions) in
  let sells :=
    TokenService.sortByTimestamp
      (TokenService.collectSells walletAddress contractAddress transactions) in
  let result :=
    TokenService.fetchWalletData priceAt walletAddress contractAddress
      currentMarketCap now transactions in
  (forall firstBuy sample,
     head buys = Some firstBuy ->
     priceAt (TokenService.timestamp firstBuy) = Some sample ->
     TokenService.marketCap sample = zero ->
     TokenService.marketCapOr currentMarketCap (Some sample)
     = TokenService.marketCapOr currentMarketCap None /\
     exists data,
       result = Some (TokenService.Success data) /\
       TokenService.entryMarketCap data = currentMarketCap) /\
  (forall firstBuy sample,
     head buys = Some firstBuy ->
     priceAt (exitTimestampOf sells now) = Some sample ->
     TokenService.marketCap sample = zero ->
     exists data,
       result = Some (TokenService.Success data) /\
       TokenService.exitMarketCap data = currentMarketCap) /\
  (forall st buy sample,
     priceAt (TokenService.timestamp buy) = Some sample ->
     TokenService.price sample = zero ->
     TokenService.priceOrZero (Some sample) = TokenService.priceOrZero None /\
     TokenService.buyStep priceAt st buy = TokenService.buyStep noPrice st buy /\
     (isFin (TokenService.amount buy) ->
      Forall finiteTrade (TokenService.sells st) ->
      exists st',
        TokenService.buyStep priceAt st buy = Some st' /\
        TokenService.investedUSD st' = TokenService.investedUSD st)) /\
  result
  = TokenService.fetchWalletData (missWhenZero priceAt) walletAddress
      contractAddress currentMarketCap now transactions.
Proof.
  cbv zeta. split; [|split; [|split]].
  - intros firstBuy sample Hhead Hs Hz.
    split; [now apply marketCapOr_zero|].
    destruct (buyLoop_total priceAt
                (TokenService.sortByTimestamp
                   (TokenService.collectBuys walletAddress contractAddress
                      transactions))
                (TokenService.initialLedger
                   (TokenService.sortByTimestamp
                      (TokenService.collectSells walletAddress contractAddress
                         transactions)))) as [st Hst].
    eexists. split.
    + apply (fetchWalletData_success priceAt _ _ _ _ _ firstBuy st Hhead Hst).
    + cbn [TokenService.entryMarketCap]. rewrite Hs.
      now apply marketCapOr_zero.
  - intros firstBuy sample Hhead Hs Hz.
    destruct (buyLoop_total priceAt
                (TokenService.sortByTimestamp
                   (TokenService.collectBuys walletAddress contractAddress
                      transactions))
                (TokenService.initialLedger
                   (TokenService.sortByTimestamp
                      (TokenService.collectSells walletAddress contractAddress
                         transactions)))) as [st Hst].
    eexists. split.
    + apply (fetchWalletData_success priceAt _ _ _ _ _ firstBuy st Hhead Hst).
    + cbn [TokenService.exitMarketCap]. rewrite Hs.
      now apply marketCapOr_zero.
  - intros st buy sample Hs Hp. split.
    + now apply priceOrZero_zero.
    + now apply buyStep_zero_price with sample.
  - apply fetchWalletData_ext.
    + apply missWhenZero_price.
    + apply missWhenZero_marketCap.
Qed.

Lemma zero_sample_is_a_miss_witness :
  exists data,
    TokenService.fetchWalletData zeroPrice "W" "M" (ofZ 7) 20
      exampleTransactions = Some (TokenService.Success data) /\
    TokenService.entryMarketCap data = ofZ 7.
Proof.
  destruct (zero_sample_is_a_miss zeroPrice "W" "M" (ofZ 7) 20
              exampleTransactions) as [Hentry _].
  destruct (Hentry (trade 100 0)
              {| TokenService.price := zero; TokenService.marketCap := zero |})
    as [_ Hdata].
  - apply (bool_decide_eq_true_1 _). vm_compute. reflexivity.
  - reflexivity.
  - reflexivity.
  - exact Hdata.
Defined.

(** ** PnL engine *)

(** C2, as the code has it.  Neither calculator has an error path: a pass
    over a non-empty input stores one record per wallet, in order,
    whatever the market caps.  A wallet whose entryMarketCap is 0 gets a
    rawPnL and a pnLPercentage that are Infinity, -Infinity or NaN, the
    outcome of the unguarded division. *)
Theorem division_by_zero_is_not_reported (w : WalletData) :
  (entryMarketCap w = zero ->
   ~ isFin (rawPnL (walletWithPnL w)) /\
   ~ isFin (pnLPercentage (walletWithPnL w))) /\
  (forall mode pcts ws,
     In w ws ->
     exists out,
       PnLCalculator.calculatePnL mode pcts ws = Some out /\
       map wallet out = ws) /\
  (forall ws,
     In w ws ->
     exists out,
       BreakEvenCalculator.calculatePnL ws = Some out /\
       map wallet out = ws).
Proof.
  split; [|split].
  - intros Hz. cbn [walletWithPnL rawPnL pnLPercentage].
    assert (~ isFin (exitMarketCap w / entryMarketCap w)%num) as Hratio
      by (rewrite Hz; apply div_zero_not_fin).
    split.
    + now apply add_not_fin_l, mul_not_fin_r.
    + now apply mul_not_fin_l, add_not_fin_l.
  - intros mode pcts ws Hin.
    assert (ws <> []) as Hne by (intros ->; destruct Hin).
    rewrite (calculatePnL_stores mode pcts ws Hne). cbv zeta.
    eexists. split; [reflexivity|].
    destruct (nothingToRedistribute _); [apply wallets_kept|].
    apply wallets_kept_by. intros c. now destruct (isProfit c).
  - intros ws Hin.
    assert (ws <> []) as Hne by (intros ->; destruct Hin).
    rewrite (breakEven_stores ws Hne). cbv zeta.
    eexists. split; [reflexivity|].
    destruct (nothingToRedistribute _); [apply wallets_kept|].
    apply wallets_kept_by. intros c. now destruct (isProfit c).
Qed.

Lemma division_by_zero_is_not_reported_witness :
  (~ isFin (rawPnL (walletWithPnL walletZ)) /\
   ~ isFin (pnLPercentage (walletWithPnL walletZ))) /\
  (exists out,
     PnLCalculator.calculatePnL "custom" ∅ [walletA; walletZ; walletB]
     = Some out /\
     map wallet out = [walletA; walletZ; walletB]) /\
  (exists out,
     BreakEvenCalculator.calculatePnL [walletA; walletZ; walletB] = Some out /\
     map wallet out = [walletA; walletZ; walletB]).
Proof.
  destruct (division_by_zero_is_not_reported walletZ) as (Hz & Hcap & Hbe).
  split; [|split].
  - apply Hz. apply (bool_decide_eq_true_1 _). vm_compute. reflexivity.
  - apply Hcap. right. left. reflexivity.
  - apply Hbe. right. left. reflexivity.
Defined.

(** C2 fails as stated: for [walletZ], whose entryMarketCap is 0, both
    calculators store a record, with rawPnL, pnLPercentage and
    finalBalance equal to Infinity and the wallet classified as a winner;
    and next to [walletB] the pool-capped pass redistributes on that
    basis. *)
Lemma division_by_zero_counterexample :
  entryMarketCap walletZ = zero /\
  (exists c,
     PnLCalculator.calculatePnL "equal" ∅ [walletZ] = Some [c] /\
     BreakEvenCalculator.calculatePnL [walletZ] = Some [c] /\
     wallet c = walletZ /\ rawPnL c = PInf /\ pnLPercentage c = PInf /\
     finalBalance c = PInf /\ isProfit c = true) /\
  (exists z b,
     PnLCalculator.calculatePnL "equal" ∅ [walletZ; walletB] = Some [z; b] /\
     redistributionAmount z = NaN /\ finalBalance z = NaN /\
     redistributionAmount b = ofZ 500 /\ finalBalance b = ofZ 1000).
Proof.
  split; [by_evaluation|]. split.
  - eexists. split; [reflexivity|]. split; [reflexivity|].
    split; [reflexivity|]. repeat split; by_evaluation.
  - eexists. eexists. split; [reflexivity|].
    repeat split; by_evaluation.
Qed.

(** ** Redistribution engine *)

(** C6.  When there is no winner or no loser, a pass of either calculator
    stores the records as [walletWithPnL] made them, in the order of the
    input: redistributionAmount is 0 and finalBalance is investedAmount +
    rawPnL for every wallet, whatever the mode and the custom percentages.
    (Nothing is stored for an empty input.) *)
Theorem no_redistribution_on_empty_partition
    (mode : string) (pcts : gmap string num) (ws : list WalletData) :
  winnersOf (map walletWithPnL ws) = [] \/ losersOf (map walletWithPnL ws) = [] ->
  match PnLCalculator.calculatePnL mode pcts ws with
  | Some out => Forall untouched out /\ map wallet out = ws
  | None => ws = []
  end /\
  match BreakEvenCalculator.calculatePnL ws with
  | Some out => Forall untouched out /\ map wallet out = ws
  | None => ws = []
  end.
Proof.
  intros Hpart. destruct ws as [|w ws]; [split; reflexivity|].
  assert (w :: ws <> []) as Hne by discriminate.
  rewrite (calculatePnL_stores mode pcts _ Hne), (breakEven_stores _ Hne).
  cbv zeta. rewrite (gate_empty_partition _ Hpart).
  assert (map wallet (map walletWithPnL (w :: ws)) = w :: ws) as Hid.
  { rewrite map_map. apply map_id. }
  split; (split; [apply untouched_map | exact Hid]).
Qed.

Lemma no_redistribution_on_empty_partition_witness :
  match PnLCalculator.calculatePnL "custom" ∅ [walletA; walletA] with
  | Some out => Forall untouched out /\ map wallet out = [walletA; walletA]
  | None => [walletA; walletA] = []
  end /\
  match BreakEvenCalculator.calculatePnL [walletA; walletA] with
  | Some out => Forall untouched out /\ map wallet out = [walletA; walletA]
  | None => [walletA; walletA] = []
  end.
Proof.
  apply (no_redistribution_on_empty_partition "custom" ∅ [walletA; walletA]).
  right. vm_compute. reflexivity.
Defined.

(** C7, as the code has it.  Every record that the pool-capped calculator
    stores satisfies finalBalance = investedAmount + rawPnL +
    redistributionAmount, under every mode, custom percentages and input,
    also when the gate closes.  In the break-even variant the same holds
    of every loser and of every record when the gate closes; a winner of
    a pass that redistributes is stored with finalBalance =
    investedAmount and redistributionAmount = -max(0, (investedAmount +
    rawPnL) - investedAmount) instead.  (Nothing is stored for an empty
    input.) *)
Theorem final_balance_invariant
    (mode : string) (pcts : gmap string num) (ws : list WalletData) :
  let W := map walletWithPnL ws in
  match PnLCalculator.calculatePnL mode pcts ws with
  | Some out => Forall balanced out
  | None => ws = []
  end /\
  match BreakEvenCalculator.calculatePnL ws with
  | Some out =>
      Forall (fun c =>
                if isProfit c && negb (nothingToRedistribute W)
                then atBreakEven c
                else balanced c) out
  | None => ws = []
  end.
Proof.
  cbv zeta. destruct ws as [|w ws]; [split; reflexivity|].
  assert (w :: ws <> []) as Hne by discriminate.
  rewrite (calculatePnL_redistributed mode pcts _ Hne),
    (breakEven_stores _ Hne).
  cbv zeta. set (W := map walletWithPnL (w :: ws)).
  pose proof (untouched_map (w :: ws)) as HW. fold W in HW.
  assert (Forall balanced W) as Hgate.
  { eapply List.Forall_impl; [|exact HW]. apply untouched_balanced. }
  split.
  - destruct (nothingToRedistribute W); [exact Hgate|].
    apply redistributed_balanced.
  - destruct (nothingToRedistribute W).
    + eapply List.Forall_impl; [|exact Hgate].
      intros c Hc. now rewrite andb_false_r.
    + apply List.Forall_map.
      eapply List.Forall_impl; [|exact HW].
      intros c Hc. destruct (isProfit c) eqn:Hp.
      * cbn [BreakEvenCalculator.settleWinner isProfit]. rewrite Hp.
        cbn [negb andb]. now apply settleWinner_atBreakEven.
      * cbn [BreakEvenCalculator.settleLoser isProfit]. rewrite Hp.
        cbn [andb]. apply settleLoser_balanced.
Qed.


Lemma final_balance_invariant_witness :
  let W := map walletWithPnL [walletA; walletZ; walletB] in
  match PnLCalculator.calculatePnL "custom" {[ "B"%string := ofZ 40 ]}
          [walletA; walletZ; walletB] with
  | Some out => Forall balanced out
  | None => False
  end /\
  match BreakEvenCalculator.calculatePnL [walletA; walletZ; walletB] with
  | Some out =>
      Forall (fun c =>
                if isProfit c && negb (nothingToRedistribute W)
                then atBreakEven c
                else balanced c) out
  | None => False
  end.
Proof.
  exact (final_balance_invariant "custom" {[ "B"%string := ofZ 40 ]}
           [walletA; walletZ; walletB]).
Defined.

(** C7 fails as stated: in the break-even variant the winner of
    [walletZ; walletB], whose raw PnL is Infinity, is stored with
    finalBalance 1000 while investedAmount + rawPnL +
    redistributionAmount is NaN. *)
Lemma final_balance_counterexample :
  exists z b,
    BreakEvenCalculator.calculatePnL [walletZ; walletB] = Some [z; b] /\
    wallet z = walletZ /\ isProfit z = true /\
    rawPnL z = PInf /\ redistributionAmount z = NInf /\
    finalBalance z = ofZ 1000 /\
    (invested z + rawPnL z + redistributionAmount z)%num = NaN /\
    finalBalance z <> (invested z + rawPnL z + redistributionAmount z)%num.
Proof.
  eexists. eexists. split; [reflexivity|].
  split; [reflexivity|]. split; [vm_compute; reflexivity|].
  repeat split; by_evaluation.
Qed.




(** C4, as the code has it.  When the redistribution runs, under every
    mode and custom percentages, every winner's redistributionAmount is
    -given * (rawPnL / totalProfit), where given is what the losers were
    given in total, as the code adds it up.  The winners' side depends on
    the mode and on the percentages through that total only: two passes
    over the same wallets that give the losers the same total store the
    same winners.  With a single loser under "equal" (or under
    "proportional", its raw PnL being finite) the total is the pool
    min(totalProfit, totalLoss) itself and the amount is
    -pool * (rawPnL / totalProfit). *)
Theorem winners_share
    (mode : string) (pcts : gmap string num) (ws : list WalletData) :
  let W := map walletWithPnL ws in
  match PnLCalculator.calculatePnL mode pcts ws with
  | Some out =>
      let given := sumOf redistributionAmount (losersOf out) in
      (nothingToRedistribute W = false ->
       Forall (fun c =>
                 isProfit c = true ->
                 redistributionAmount c
                 = ((- given) * (rawPnL c / totalProfitOf W))%num) out) /\
      (forall mode' pcts' out',
         PnLCalculator.calculatePnL mode' pcts' ws = Some out' ->
         sumOf redistributionAmount (losersOf out') = given ->
         winnersOf out' = winnersOf out) /\
      (forall loser,
         nothingToRedistribute W = false ->
         losersOf W = [loser] ->
         wholePoolPolicy mode loser ->
         Forall (fun c =>
                   isProfit c = true ->
                   redistributionAmount c
                   = ((- poolOf W) * (rawPnL c / totalProfitOf W))%num) out)
  | None => ws = []
  end.
Proof.
  cbv zeta. destruct ws as [|w ws]; [reflexivity|].
  assert (w :: ws <> []) as Hne by discriminate.
  rewrite (calculatePnL_redistributed mode pcts _ Hne).
  set (W := map walletWithPnL (w :: ws)).
  destruct (nothingToRedistribute W) eqn:Hgate.
  - split; [discriminate|]. split; [|discriminate].
    intros mode' pcts' out' Hout' _.
    rewrite (calculatePnL_redistributed mode' pcts' _ Hne) in Hout'.
    fold W in Hout'. rewrite Hgate in Hout'. now injection Hout' as <-.
  - destruct (gate_open W Hgate) as [HP HL].
    rewrite redistributed_given. split; [|split].
    + intros _. apply List.Forall_forall. intros c Hin Hp.
      now apply redistributed_winner.
    + intros mode' pcts' out' Hout' Hgiven.
      rewrite (calculatePnL_redistributed mode' pcts' _ Hne) in Hout'.
      fold W in Hout'. rewrite Hgate in Hout'. injection Hout' as <-.
      rewrite redistributed_given in Hgiven.
      now rewrite !redistributed_winners, Hgiven.
    + intros loser _ Hone Hmode. apply List.Forall_forall. intros c Hin Hp.
      rewrite <- (single_loser_given mode pcts W loser HL Hone Hmode).
      now apply redistributed_winner.
Qed.

Lemma winners_share_witness :
  let W := map walletWithPnL [walletA; walletB] in
  match PnLCalculator.calculatePnL "custom" {[ "B"%string := ofZ 40 ]}
          [walletA; walletB] with
  | Some out =>
      sumOf redistributionAmount (losersOf out) = ofZ 200 /\
      Forall (fun c =>
                isProfit c = true ->
                redistributionAmount c
                = ((- sumOf redistributionAmount (losersOf out))
                   * (rawPnL c / totalProfitOf W))%num) out
  | None => False
  end /\
  match PnLCalculator.calculatePnL "equal" ∅ [walletA; walletB],
        PnLCalculator.calculatePnL "proportional" ∅ [walletA; walletB] with
  | Some out, Some out' => winnersOf out' = winnersOf out
  | _, _ => False
  end.
Proof.
  cbv zeta. split.
  - pose proof (winners_share "custom" {[ "B"%string := ofZ 40 ]}
                  [walletA; walletB]) as H.
    cbv zeta in H.
    assert (PnLCalculator.calculatePnL "custom" {[ "B"%string := ofZ 40 ]}
              [walletA; walletB]
            = Some (redistributed "custom" {[ "B"%string := ofZ 40 ]}
                      (map walletWithPnL [walletA; walletB]))) as E
      by reflexivity.
    rewrite E in H |- *. destruct H as (H & _). split.
    + apply (bool_decide_eq_true_1 _). vm_compute. reflexivity.
    + apply H. vm_compute. reflexivity.
  - pose proof (winners_share "equal" ∅ [walletA; walletB]) as H.
    cbv zeta in H.
    assert (PnLCalculator.calculatePnL "equal" ∅ [walletA; walletB]
            = Some (redistributed "equal" ∅
                      (map walletWithPnL [walletA; walletB]))) as E
      by reflexivity.
    assert (PnLCalculator.calculatePnL "proportional" ∅ [walletA; walletB]
            = Some (redistributed "proportional" ∅
                      (map walletWithPnL [walletA; walletB]))) as E'
      by reflexivity.
    rewrite E in H |- *. rewrite E'. destruct H as (_ & H & _).
    apply (H "proportional" ∅ _ E').
    apply (bool_decide_eq_true_1 _). vm_compute. reflexivity.
Defined.

(** C4 fails as stated: under "custom" with no percentage entered, the
    loser of [walletA; walletB] is given nothing and the winner gives
    nothing, while -pool * (rawPnL / totalProfit) is -500. *)
Lemma winners_share_counterexample :
  let W := map walletWithPnL [walletA; walletB] in
  exists out c,
    PnLCalculator.calculatePnL "custom" ∅ [walletA; walletB] = Some out /\
    In c out /\ isProfit c = true /\
    redistributionAmount c = zero /\
    ((- poolOf W) * (rawPnL c / totalProfitOf W))%num = ofZ (-500) /\
    redistributionAmount c
    <> ((- poolOf W) * (rawPnL c / totalProfitOf W))%num.
Proof.
  cbv zeta. eexists. eexists. split; [reflexivity|].
  split; [left; reflexivity|].
  split; [vm_compute; reflexivity|].
  repeat split; by_evaluation.
Qed.




(** C8.  In the break-even variant, when both totals are different from 0
    (so that there is a winner and a loser), the stored records are the
    input wallets in order; every winner ends at its invested amount,
    having given up max(0, (investedAmount + rawPnL) - investedAmount),
    its profit above the invested principal; and every loser receives the
    sum of what the winners gave up divided by the number of losers,
    whatever the total loss, on top of investedAmount + rawPnL. *)
Theorem break_even (ws : list WalletData) :
  let W := map walletWithPnL ws in
  totalProfitOf W <> zero ->
  totalLossOf W <> zero ->
  exists out,
    BreakEvenCalculator.calculatePnL ws = Some out /\
    map wallet out = ws /\
    BreakEvenCalculator.totalRedistributableProfitOf (winnersOf W)
    = sumOf profitAbovePrincipal (winnersOf W) /\
    Forall (fun c =>
      if isProfit c
      then finalBalance c = invested c /\
           redistributionAmount c = (- profitAbovePrincipal c)%num
      else redistributionAmount c
           = (sumOf profitAbovePrincipal (winnersOf W)
              / ofZ (Z.of_nat (length (losersOf W))))%num /\
           finalBalance c
           = (invested c + rawPnL c + redistributionAmount c)%num)
      out.
Proof.
  intros W HP HL.
  assert (ws <> []) as Hne.
  { intros ->. now apply HP. }
  rewrite (breakEven_stores ws Hne). cbv zeta. fold W.
  assert (nothingToRedistribute W = false) as ->.
  { unfold nothingToRedistribute. apply orb_false_iff.
    split; now apply isZero_false. }
  pose proof (untouched_map ws) as HW. fold W in HW.
  assert (BreakEvenCalculator.totalRedistributableProfitOf (winnersOf W)
          = sumOf profitAbovePrincipal (winnersOf W)) as ET.
  { apply totalRedistributableProfit_untouched. now apply untouched_filter. }
  eexists. split; [reflexivity|]. split; [|split].
  - apply wallets_kept_by. intros c. now destruct (isProfit c).
  - exact ET.
  - apply List.Forall_map.
    eapply List.Forall_impl; [|exact HW]. intros c Hc.
    destruct (isProfit c) eqn:Hp.
    + cbn [BreakEvenCalculator.settleWinner isProfit]. rewrite Hp.
      now apply settleWinner_atBreakEven.
    + cbn [BreakEvenCalculator.settleLoser isProfit redistributionAmount
           finalBalance rawPnL]. rewrite Hp, ET.
      split; reflexivity.
Qed.

Lemma break_even_witness :
  let W := map walletWithPnL [walletA; walletZ; walletB; walletB] in
  exists out,
    BreakEvenCalculator.calculatePnL [walletA; walletZ; walletB; walletB]
    = Some out /\
    map wallet out = [walletA; walletZ; walletB; walletB] /\
    BreakEvenCalculator.totalRedistributableProfitOf (winnersOf W)
    = sumOf profitAbovePrincipal (winnersOf W) /\
    Forall (fun c =>
      if isProfit c
      then finalBalance c = invested c /\
           redistributionAmount c = (- profitAbovePrincipal c)%num
      else redistributionAmount c
           = (sumOf profitAbovePrincipal (winnersOf W)
              / ofZ (Z.of_nat (length (losersOf W))))%num /\
           finalBalance c
           = (invested c + rawPnL c + redistributionAmount c)%num)
      out.
Proof.
  apply (break_even [walletA; walletZ; walletB; walletB]).
  - vm_compute. discriminate.
  - vm_compute. discriminate.
Defined.

(** * Further properties of the code *)

(** ** The custom percentages that a pass reads *)

Section PercentagesRead.

Import PnLCalculator.

Lemma settleLoser_agree (mode : string) (pcts pcts' : gmap string num)
    (pool totalLoss : num) (n : nat) (c : CalculatedWallet) :
  (mode = "custom"%string -> pcts !! id (wallet c) = pcts' !! id (wallet c)) ->
  settleLoser mode pcts pool totalLoss n c
  = settleLoser mode pcts' pool totalLoss n c.
Proof.
  intros H. unfold settleLoser, customPercentageOf.
  destruct (String.eqb mode "equal"); [reflexivity|].
  destruct (String.eqb mode "proportional"); [reflexivity|].
  destruct (String.eqb_spec mode "custom") as [E|E]; [|reflexivity].
  now rewrite (H E).
Qed.

Lemma map_ext_Forall {A B : Type} (f g : A -> B) (l : list A) :
  Forall (fun x => f x = g x) l -> map f l = map g l.
Proof.
  induction 1 as [|x l Hx Hl IH]; cbn [map]; [reflexivity|].
  now rewrite Hx, IH.
Qed.

Lemma losers_are_losers (W : list CalculatedWallet) (c : CalculatedWallet) :
  In c W -> isProfit c = false -> In c (losersOf W).
Proof. intros Hin Hp. apply filter_In. split; [assumption | now rewrite Hp]. Qed.

End PercentagesRead.

Lemma calculatePnL_agree
    (mode : string) (pcts pcts' : gmap string num) (ws : list WalletData) :
  (mode = "custom"%string ->
   forall c, In c (losersOf (map walletWithPnL ws)) ->
             pcts !! id (wallet c) = pcts' !! id (wallet c)) ->
  PnLCalculator.calculatePnL mode pcts ws
  = PnLCalculator.calculatePnL mode pcts' ws.
Proof.
  intros Hagree. destruct ws as [|w ws]; [reflexivity|].
  assert (w :: ws <> []) as Hne by discriminate.
  rewrite !(calculatePnL_stores mode _ _ Hne). cbv zeta.
  set (W := map walletWithPnL (w :: ws)) in *.
  destruct (nothingToRedistribute W); [reflexivity|]. f_equal.
  assert (map (PnLCalculator.settleLoser mode pcts (poolOf W) (totalLossOf W)
                 (length (losersOf W))) (losersOf W)
          = map (PnLCalculator.settleLoser mode pcts' (poolOf W) (totalLossOf W)
                   (length (losersOf W))) (losersOf W)) as ->.
  { apply map_ext_Forall, List.Forall_forall. intros c Hin.
    apply settleLoser_agree. intros Hm. now apply Hagree. }
  apply map_ext_Forall, List.Forall_forall. intros c Hin.
  destruct (isProfit c) eqn:Hp; [reflexivity|].
  apply settleLoser_agree. intros Hm. apply Hagree; [assumption|].
  now apply losers_are_losers.
Qed.


(** X1.  A pass of the pool-capped calculator reads the custom
    percentages only under "custom", and then only at the ids of the
    losers: two percentage maps that agree there give the same stored
    records, whatever else they hold. *)
Theorem percentages_read_at_losers
    (mode : string) (pcts pcts' : gmap string num) (ws : list WalletData) :
  (mode = "custom"%string ->
   forall c, In c (losersOf (map walletWithPnL ws)) ->
             pcts !! id (wallet c) = pcts' !! id (wallet c)) ->
  PnLCalculator.calculatePnL mode pcts ws
  = PnLCalculator.calculatePnL mode pcts' ws.
Proof. apply calculatePnL_agree. Qed.

Lemma percentages_read_at_losers_witness :
  PnLCalculator.calculatePnL "custom"
    (handleCustomPercentageChange "A" (ofZ 70) {[ "B"%string := ofZ 40 ]})
    [walletA; walletB]
  = PnLCalculator.calculatePnL "custom" {[ "B"%string := ofZ 40 ]}
      [walletA; walletB].
Proof.
  apply (percentages_read_at_losers "custom").
  intros _ c Hin. cbn in Hin. destruct Hin as [<- | []].
  vm_compute. reflexivity.
Defined.

(** ** The order of the result table *)

Section TableOrder.

Lemma insert_winner (x : CalculatedWallet) (l : list CalculatedWallet) :
  isProfit x = true -> insertBy profitFirst x l = x :: l.
Proof.
  intros Hx. destruct l as [|y l]; [reflexivity|].
  cbn [insertBy]. unfold profitFirst. rewrite Hx.
  now destruct (isProfit y).
Qed.

Lemma insert_loser (x : CalculatedWallet) (winners losers : list CalculatedWallet) :
  isProfit x = false ->
  Forall (fun c => isProfit c = true) winners ->
  Forall (fun c => isProfit c = false) losers ->
  insertBy profitFirst x (winners ++ losers) = winners ++ x :: losers.
Proof.
  intros Hx Hw Hl. induction Hw as [|y winners Hy Hw IH]; cbn [app].
  - destruct Hl as [|y losers Hy Hl]; [reflexivity|].
    cbn [insertBy]. unfold profitFirst. now rewrite Hx, Hy.
  - cbn [insertBy]. unfold profitFirst at 1. rewrite Hx, Hy. cbn.
    now rewrite IH.
Qed.

Lemma winnersOf_all (l : list CalculatedWallet) :
  Forall (fun c => isProfit c = true) (winnersOf l).
Proof.
  eapply List.Forall_impl; [|apply (Forall_filter_true (fun _ => True))].
  - now intros c [_ H].
  - now apply List.Forall_forall.
Qed.

Lemma losersOf_all (l : list CalculatedWallet) :
  Forall (fun c => isProfit c = false) (losersOf l).
Proof.
  eapply List.Forall_impl; [|apply (Forall_filter_true (fun _ => True))].
  - intros c [_ H]. now destruct (isProfit c).
  - now apply List.Forall_forall.
Qed.

End TableOrder.

(** X2.  The table of the break-even component lists the profit wallets
    first and the loss wallets after them, each group in the order of the
    computed records: the sort is the stable partition of the records. *)
Theorem sortedData_is_stable_partition (calculatedData : list CalculatedWallet) :
  sortedData calculatedData
  = winnersOf calculatedData ++ losersOf calculatedData.
Proof.
  unfold sortedData, stableSort.
  induction calculatedData as [|x l IH]; [reflexivity|].
  cbn [fold_right]. rewrite IH. unfold winnersOf, losersOf.
  cbn [List.filter]. destruct (isProfit x) eqn:Hx; cbn [negb app].
  - now apply insert_winner.
  - apply insert_loser; [assumption | apply winnersOf_all | apply losersOf_all].
Qed.

(** ** Position reconstruction: what is read *)

Section Relevant.

Import TokenService.

Lemma flat_map_filter {A B : Type} (f : A -> list B) (p : A -> bool)
    (l : list A) :
  (forall x, p x = false -> f x = []) ->
  flat_map f (List.filter p l) = flat_map f l.
Proof.
  intros H. induction l as [|x l IH]; [reflexivity|].
  cbn [List.filter flat_map]. destruct (p x) eqn:E.
  - cbn [flat_map]. now rewrite IH.
  - now rewrite (H x E), IH.
Qed.

Lemma collect_prune (walletAddress contractAddress : string)
    (side : TokenTransfer -> bool) (transactions : list Transaction) :
  (forall t, String.eqb (mint t) contractAddress && side t = true ->
             concerns walletAddress contractAddress t = true) ->
  collect contractAddress side (prune walletAddress contractAddress transactions)
  = collect contractAddress side transactions.
Proof.
  intros Hside. unfold collect, prune.
  induction transactions as [|tx txs IH]; [reflexivity|].
  cbn [map flat_map]. rewrite IH. f_equal.
  cbn [tokenTransfers]. destruct (tokenTransfers tx) as [transfers|];
    [|reflexivity].
  cbn [option_map]. unfold tradeOf. cbn [tx_timestamp].
  apply flat_map_filter. intros t Ht.
  destruct (String.eqb (mint t) contractAddress && side t) eqn:E;
    [|reflexivity].
  rewrite (Hside t E) in Ht. discriminate.
Qed.

End Relevant.

(** X8.  [fetchWalletData] reads the transfers of the given mint to or
    from the given wallet and nothing else: removing every other transfer
    from the transactions leaves its answer unchanged. *)
Theorem other_transfers_are_ignored
    (priceAt : Z -> option TokenService.PriceSample)
    (walletAddress contractAddress : string) (currentMarketCap : num)
    (now : Z) (transactions : list TokenService.Transaction) :
  TokenService.fetchWalletData priceAt walletAddress contractAddress
    currentMarketCap now (prune walletAddress contractAddress transactions)
  = TokenService.fetchWalletData priceAt walletAddress contractAddress
      currentMarketCap now transactions.
Proof.
  unfold TokenService.fetchWalletData, TokenService.collectBuys,
    TokenService.collectSells.
  rewrite !collect_prune; [reflexivity | |];
    intros t Ht; unfold concerns; apply andb_true_iff in Ht as [-> ->];
    cbn; now rewrite ?orb_true_r.
Qed.

(** ** Position reconstruction: sells that are never matched *)

Section Exhausted.

Import TokenService.

Variable priceAt : Z -> option PriceSample.

Lemma while_false {S : Type} (fuel : nat) (cond : S -> bool) (body : S -> S)
    (s : S) :
  cond s = false -> while fuel cond body s = Some s.
Proof. intros H. destruct fuel; cbn [while]; now rewrite H. Qed.

Lemma while_true {S : Type} (fuel : nat) (cond : S -> bool) (body : S -> S)
    (s : S) :
  cond s = true ->
  while (Datatypes.S fuel) cond body s = while fuel cond body (body s).
Proof. intros H. cbn [while]. now rewrite H. Qed.

(** The first inner loop passes over all the sells that are not later
    than the buy. *)
Lemma skip_all (buy : Trade) (b : num) (l : list Trade) (k idx fuel : nat) :
  Forall (fun sell => timestamp sell <= timestamp buy) l ->
  (idx + k = length l)%nat -> (k <= fuel)%nat ->
  while fuel (skipCond buy) skipBody
    {| buyAmount := b; m_sells := l; m_sellIndex := idx |}
  = Some {| buyAmount := b; m_sells := l; m_sellIndex := length l |}.
Proof.
  intros Hall. revert idx fuel. induction k as [|k IH]; intros idx fuel Hk Hf.
  - replace idx with (length l) by lia. apply while_false.
    unfold skipCond. cbn [m_sells m_sellIndex].
    now rewrite lookup_ge_None_2.
  - destruct fuel as [|fuel]; [lia|].
    destruct (lookup_lt_is_Some_2 l idx) as [sell Esell]; [lia|].
    rewrite while_true.
    + unfold skipBody. cbn [buyAmount m_sells m_sellIndex]. apply IH; lia.
    + unfold skipCond. cbn [m_sells m_sellIndex]. rewrite Esell.
      rewrite List.Forall_forall in Hall. apply Z.leb_le, Hall.
      apply list_elem_of_In. eapply list_elem_of_lookup_2, Esell.
Qed.

Lemma matchCond_exhausted (b : num) (l : list Trade) (idx : nat) :
  (length l <= idx)%nat ->
  matchCond {| buyAmount := b; m_sells := l; m_sellIndex := idx |} = false.
Proof.
  intros H. unfold matchCond. cbn [m_sells m_sellIndex buyAmount].
  rewrite bool_decide_eq_false_2 by lia. apply andb_false_r.
Qed.

(** Once the cursor is past the last sell, a buy is booked whole. *)
Lemma buyStep_exhausted (st : Ledger) (buy : Trade) :
  (length (sells st) <= sellIndex st)%nat ->
  buyStep priceAt st buy = Some (booked priceAt st buy (sellIndex st)).
Proof.
  intros H. unfold booked.
  set (m := {| buyAmount := amount buy; m_sells := sells st;
               m_sellIndex := sellIndex st |}).
  assert (while (skipFuel m) (skipCond buy) skipBody m = Some m) as E1.
  { apply while_false. unfold skipCond, m. cbn [m_sells m_sellIndex].
    now rewrite lookup_ge_None_2. }
  assert (while (matchFuel m) matchCond matchBody m = Some m) as E2.
  { apply while_false. now apply matchCond_exhausted. }
  destruct (amount buy >? zero)%num eqn:Hpos.
  - now rewrite (buyStep_residual priceAt st buy m m E1 E2 Hpos).
  - now rewrite (buyStep_consumed priceAt st buy m m E1 E2 Hpos).
Qed.

(** A buy that comes after every sell is booked whole as well, and leaves
    the cursor past the last sell. *)
Lemma buyStep_after_sells (st : Ledger) (buy : Trade) :
  Forall (fun sell => timestamp sell <= timestamp buy) (sells st) ->
  (sellIndex st <= length (sells st))%nat ->
  buyStep priceAt st buy = Some (booked priceAt st buy (length (sells st))).
Proof.
  intros Hall Hidx. unfold booked.
  set (m := {| buyAmount := amount buy; m_sells := sells st;
               m_sellIndex := sellIndex st |}).
  set (m' := {| buyAmount := amount buy; m_sells := sells st;
                m_sellIndex := length (sells st) |}).
  assert (while (skipFuel m) (skipCond buy) skipBody m = Some m') as E1.
  { apply (skip_all buy _ _ (length (sells st) - sellIndex st));
      [assumption | lia | unfold skipFuel, m; cbn [m_sells]; lia]. }
  assert (while (matchFuel m') matchCond matchBody m' = Some m') as E2.
  { apply while_false. now apply matchCond_exhausted. }
  destruct (amount buy >? zero)%num eqn:Hpos.
  - now rewrite (buyStep_residual priceAt st buy m' m' E1 E2 Hpos).
  - now rewrite (buyStep_consumed priceAt st buy m' m' E1 E2 Hpos).
Qed.

Lemma booked_invested (st : Ledger) (buy : Trade) (index : nat) :
  investedUSD (booked priceAt st buy index)
  = fold_left
      (fun sum b =>
         (sum + amount b * priceOrZero (priceAt (timestamp b)))%num)
      (List.filter (fun b => (amount b >? zero)%num) [buy])
      (investedUSD st).
Proof.
  unfold booked. cbn [List.filter].
  now destruct (amount buy >? zero)%num.
Qed.

Lemma buyLoop_exhausted (buys : list Trade) (st : Ledger) :
  (length (sells st) <= sellIndex st)%nat ->
  exists st',
    buyLoop priceAt st buys = Some st' /\
    investedUSD st'
    = fold_left
        (fun sum b =>
           (sum + amount b * priceOrZero (priceAt (timestamp b)))%num)
        (List.filter (fun b => (amount b >? zero)%num) buys)
        (investedUSD st).
Proof.
  revert st. induction buys as [|buy rest IH]; intros st Hidx;
    cbn [buyLoop].
  - eexists. split; reflexivity.
  - rewrite (buyStep_exhausted st buy Hidx). cbn [mbind option_bind].
    destruct (IH (booked priceAt st buy (sellIndex st))) as (st' & Hloop & Hinv).
    { unfold booked. now destruct (amount buy >? zero)%num. }
    exists st'. split; [assumption|]. rewrite Hinv, booked_invested.
    cbn [List.filter]. now destruct (amount buy >? zero)%num.
Qed.

End Exhausted.

(** X9.  Sells that are not later than the first buy are never matched:
    when every sell is at or before the first buy (in particular when the
    wallet never sold), investedAmount is the value of all the buys with a
    positive amount, each at the price read at its own timestamp. *)
Theorem early_sells_are_never_matched
    (priceAt : Z -> option TokenService.PriceSample)
    (walletAddress contractAddress : string) (currentMarketCap : num)
    (now : Z) (transactions : list TokenService.Transaction)
    (firstBuy : TokenService.Trade) :
  let buys :=
    TokenService.sortByTimestamp
      (TokenService.collectBuys walletAddress contractAddress transactions) in
  let sells :=
    TokenService.sortByTimestamp
      (TokenService.collectSells walletAddress contractAddress transactions) in
  head buys = Some firstBuy ->
  Forall (fun sell =>
            TokenService.timestamp sell <= TokenService.timestamp firstBuy)
         sells ->
  TokenService.fetchWalletData priceAt walletAddress contractAddress
    currentMarketCap now transactions
  = Some (TokenService.Success
      {| TokenService.investedAmount := boughtValue priceAt buys;
         TokenService.entryMarketCap :=
           TokenService.marketCapOr currentMarketCap
             (priceAt (TokenService.timestamp firstBuy));
         TokenService.exitMarketCap :=
           TokenService.marketCapOr currentMarketCap
             (priceAt (exitTimestampOf sells now)) |}).
Proof.
  intros buys sells Hhead Hall.
  destruct buys as [|buy rest] eqn:Ebuys; [discriminate|].
  injection Hhead as ->.
  pose proof (buyStep_after_sells priceAt
                (TokenService.initialLedger sells) firstBuy Hall) as Hstep.
  cbn [TokenService.initialLedger TokenService.sells TokenService.sellIndex]
    in Hstep. specialize (Hstep (Nat.le_0_l _)).
  destruct (buyLoop_exhausted priceAt rest
              (booked priceAt (TokenService.initialLedger sells) firstBuy
                 (length sells))) as (st' & Hloop & Hinv).
  { unfold booked. now destruct (TokenService.amount firstBuy >? zero)%num. }
  rewrite (fetchWalletData_success priceAt walletAddress contractAddress
             currentMarketCap now transactions firstBuy st').
  - do 3 f_equal. rewrite Hinv, booked_invested. unfold boughtValue, sumOf.
    cbn [List.filter TokenService.initialLedger TokenService.investedUSD].
    now destruct (TokenService.amount firstBuy >? zero)%num.
  - fold buys. now rewrite Ebuys.
  - fold buys sells. rewrite Ebuys. cbn [TokenService.buyLoop].
    fold sells in Hstep. rewrite Hstep. cbn [mbind option_bind]. exact Hloop.
Qed.

Lemma early_sells_are_never_matched_witness :
  TokenService.fetchWalletData flatPrice "W" "M" (ofZ 7) 20 buyOnlyTransactions
  = Some (TokenService.Success
      {| TokenService.investedAmount :=
           boughtValue flatPrice
             (TokenService.sortByTimestamp
                (TokenService.collectBuys "W" "M" buyOnlyTransactions));
         TokenService.entryMarketCap :=
           TokenService.marketCapOr (ofZ 7)
             (flatPrice (TokenService.timestamp (trade 100 0)));
         TokenService.exitMarketCap :=
           TokenService.marketCapOr (ofZ 7)
             (flatPrice
                (exitTimestampOf
                   (TokenService.sortByTimestamp
                      (TokenService.collectSells "W" "M" buyOnlyTransactions))
                   20)) |}).
Proof.
  apply (early_sells_are_never_matched flatPrice "W" "M" (ofZ 7) 20
           buyOnlyTransactions (trade 100 0)).
  - apply (bool_decide_eq_true_1 _). vm_compute. reflexivity.
  - vm_compute. constructor.
Defined.

(** ** Position reconstruction: finite amounts *)

Section FiniteAmounts.

Local Open Scope Qc_scope.
Import TokenService.

Lemma Qc_of_Z_pos (z : Z) : (0 < z)%Z -> 0 < Qc_of_Z z.
Proof.
  intros H. rewrite <- Z2Qc_inj_0. exact (proj1 (Z2Qc_inj_lt 0 z) H).
Qed.

Lemma Qcdiv_pos (k : Qc) : 0 < k -> 0 < 1 / k.
Proof.
  intros Hk. apply Qcnot_le_lt. intros Hle.
  apply (Qcmult_le_compat_r _ _ k) in Hle; [|now apply Qclt_le_weak].
  rewrite Qcmult_0_l in Hle.
  replace (1 / k * k) with 1 in Hle
    by (field; now apply not_eq_sym, Qclt_not_eq).
  now apply (Qcle_not_lt _ _ Hle).
Qed.

(** [Math.pow(10, d)] is a positive rational. *)
Lemma pow10_pos (d : Z) : exists k, pow10 d = Fin k /\ 0 < k.
Proof.
  destruct d as [|p|p]; cbn [pow10].
  - exists (Qc_of_Z 1). split; [reflexivity | now apply Qc_of_Z_pos].
  - exists (Qc_of_Z (10 ^ Z.pos p)). split; [reflexivity|].
    apply Qc_of_Z_pos. now apply Z.pow_pos_nonneg.
  - assert (0 < Qc_of_Z (10 ^ Z.pos p)) as Hk
      by (apply Qc_of_Z_pos; now apply Z.pow_pos_nonneg).
    exists (Qc_of_Z 1 / Qc_of_Z (10 ^ Z.pos p)). split.
    + unfold ofZ. apply div_Fin. now apply not_eq_sym, Qclt_not_eq.
    + rewrite Z2Qc_inj_1. now apply Qcdiv_pos.
Qed.

Lemma tradeOf_finite (tx : Transaction) (t : TokenTransfer) :
  isFin (tokenAmount t) -> finiteTrade (tradeOf tx t).
Proof.
  intros H. destruct (isFin_inv _ H) as [q Eq].
  destruct (pow10_pos (decimals t)) as (k & Ek & Hk).
  unfold finiteTrade, tradeOf. cbn [amount]. rewrite Eq, Ek.
  rewrite div_Fin by (now apply not_eq_sym, Qclt_not_eq). exact I.
Qed.

Lemma collect_finite (contractAddress : string) (side : TokenTransfer -> bool)
    (transactions : list Transaction) :
  finiteTransfers transactions ->
  Forall finiteTrade (collect contractAddress side transactions).
Proof.
  intros Hfin. apply List.Forall_forall. intros trade Hin.
  unfold collect in Hin. apply in_flat_map in Hin as (tx & Htx & Hin).
  destruct (tokenTransfers tx) as [transfers|] eqn:E; [|destruct Hin].
  apply in_flat_map in Hin as (t & Ht & Hin).
  destruct (_ && _); [|destruct Hin].
  destruct Hin as [<- | []]. apply tradeOf_finite.
  now apply (Hfin tx transfers t).
Qed.

Lemma insertByTimestamp_Forall (P : Trade -> Prop) (x : Trade) (l : list Trade) :
  P x -> Forall P l -> Forall P (insertByTimestamp x l).
Proof.
  intros Hx. induction 1 as [|y l Hy Hl IH]; cbn [insertByTimestamp].
  - now constructor.
  - destruct (_ <=? _); repeat constructor; assumption.
Qed.

Lemma sortByTimestamp_Forall (P : Trade -> Prop) (l : list Trade) :
  Forall P l -> Forall P (sortByTimestamp l).
Proof.
  induction 1 as [|x l Hx Hl IH]; cbn; [constructor|].
  now apply insertByTimestamp_Forall.
Qed.

Variable priceAt : Z -> option PriceSample.

(** A buy whose price reads as 0 adds nothing, and keeps the sells
    finite. *)
Lemma buyStep_unpriced (st : Ledger) (buy : Trade) :
  priceOrZero (priceAt (timestamp buy)) = zero ->
  finiteTrade buy -> Forall finiteTrade (sells st) ->
  exists st',
    buyStep priceAt st buy = Some st' /\
    investedUSD st' = investedUSD st /\
    Forall finiteTrade (sells st').
Proof.
  intros Hzero Hbuy Hsells.
  set (m0 := {| buyAmount := amount buy; m_sells := sells st;
                m_sellIndex := sellIndex st |}).
  destruct (skip_terminates buy m0) as [m1 E1].
  destruct (match_terminates m1) as [m2 E2].
  destruct (residual_finite buy m0 m1 m2 (conj Hbuy Hsells) E1 E2) as [Hf Hs].
  destruct (buyAmount m2 >? zero)%num eqn:Hr.
  - rewrite (buyStep_residual priceAt st buy m1 m2 E1 E2 Hr).
    eexists. split; [reflexivity|]. cbn [investedUSD sells].
    split; [|assumption]. rewrite Hzero.
    destruct (isFin_inv _ Hf) as [r ->]. unfold zero. cbn [mul].
    rewrite Qcmult_0_r. apply add_zero_r.
  - rewrite (buyStep_consumed priceAt st buy m1 m2 E1 E2 Hr).
    eexists. split; [reflexivity|]. now split.
Qed.

Lemma buyLoop_unpriced (buys : list Trade) (st : Ledger) :
  (forall t, priceOrZero (priceAt t) = zero) ->
  Forall finiteTrade buys -> Forall finiteTrade (sells st) ->
  exists st',
    buyLoop priceAt st buys = Some st' /\ investedUSD st' = investedUSD st.
Proof.
  intros Hzero Hbuys. revert st.
  induction Hbuys as [|buy rest Hbuy Hrest IH]; intros st Hsells;
    cbn [buyLoop].
  - eexists. split; reflexivity.
  - destruct (buyStep_unpriced st buy (Hzero _) Hbuy Hsells)
      as (st1 & -> & Hinv & Hs1).
    cbn [mbind option_bind].
    destruct (IH st1 Hs1) as (st' & Hloop & Hinv').
    exists st'. split; [assumption | congruence].
Qed.

End FiniteAmounts.

(** X10.  When every price lookup misses and the token amounts are
    finite, a wallet with a buy gets the position (0, current market cap,
    current market cap): nothing is invested and entry and exit market cap
    are both the current one. *)
Theorem all_lookups_miss
    (priceAt : Z -> option TokenService.PriceSample)
    (walletAddress contractAddress : string) (currentMarketCap : num)
    (now : Z) (transactions : list TokenService.Transaction) :
  (forall t, priceAt t = None) ->
  finiteTransfers transactions ->
  TokenService.collectBuys walletAddress contractAddress transactions <> [] ->
  TokenService.fetchWalletData priceAt walletAddress contractAddress
    currentMarketCap now transactions
  = Some (TokenService.Success
      {| TokenService.investedAmount := zero;
         TokenService.entryMarketCap := currentMarketCap;
         TokenService.exitMarketCap := currentMarketCap |}).
Proof.
  intros Hmiss Hfin Hbuys.
  destruct (head_sorted _ Hbuys) as [firstBuy Hhead].
  destruct (buyLoop_unpriced priceAt
              (TokenService.sortByTimestamp
                 (TokenService.collectBuys walletAddress contractAddress
                    transactions))
              (TokenService.initialLedger
                 (TokenService.sortByTimestamp
                    (TokenService.collectSells walletAddress contractAddress
                       transactions))))
    as (st & Hloop & Hinv).
  - intros t. now rewrite Hmiss.
  - now apply sortByTimestamp_Forall, collect_finite.
  - now apply sortByTimestamp_Forall, collect_finite.
  - rewrite (fetchWalletData_success priceAt _ _ _ _ _ firstBuy st Hhead Hloop).
    now rewrite Hinv, !Hmiss.
Qed.

Lemma all_lookups_miss_witness :
  TokenService.fetchWalletData noPrice "W" "M" (ofZ 7) 20 exampleTransactions
  = Some (TokenService.Success
      {| TokenService.investedAmount := zero;
         TokenService.entryMarketCap := ofZ 7;
         TokenService.exitMarketCap := ofZ 7 |}).
Proof.
  apply (all_lookups_miss noPrice "W" "M" (ofZ 7) 20 exampleTransactions).
  - reflexivity.
  - intros tx transfers t Htx Htr Ht. cbn in Htx.
    destruct Htx as [<- | [<- | [<- | []]]]; cbn in Htr;
      injection Htr as <-; destruct Ht as [<- | []]; exact I.
  - vm_compute. discriminate.
Defined.

(** ** Position reconstruction: bounds *)

Section Bounds.

Local Open Scope Qc_scope.
Import TokenService.

Lemma Qcdiv_nonneg (q k : Qc) : 0 <= q -> 0 < k -> 0 <= q / k.
Proof.
  intros Hq Hk. apply Qcmult_lt_0_le_reg_r with k; [assumption|].
  rewrite Qcmult_0_l.
  replace (q / k * k) with q by (field; now apply not_eq_sym, Qclt_not_eq).
  exact Hq.
Qed.

Lemma tradeOf_nonNegative (tx : Transaction) (t : TokenTransfer) :
  nonNegative (tokenAmount t) -> nonNegativeTrade (tradeOf tx t).
Proof.
  intros (q & Eq & Hq). destruct (pow10_pos (decimals t)) as (k & Ek & Hk).
  exists (q / k). unfold tradeOf. cbn [amount]. rewrite Eq, Ek.
  split; [apply div_Fin; now apply not_eq_sym, Qclt_not_eq|].
  now apply Qcdiv_nonneg.
Qed.

Lemma collect_nonNegative (contractAddress : string)
    (side : TokenTransfer -> bool) (transactions : list Transaction) :
  nonNegativeTransfers transactions ->
  Forall nonNegativeTrade (collect contractAddress side transactions).
Proof.
  intros Hfin. apply List.Forall_forall. intros trade Hin.
  unfold collect in Hin. apply in_flat_map in Hin as (tx & Htx & Hin).
  destruct (tokenTransfers tx) as [transfers|] eqn:E; [|destruct Hin].
  apply in_flat_map in Hin as (t & Ht & Hin).
  destruct (_ && _); [|destruct Hin].
  destruct Hin as [<- | []]. apply tradeOf_nonNegative.
  now apply (Hfin tx transfers t).
Qed.

Lemma skipBody_bounded (a : Qc) (m : Matching) :
  boundedMatching a m -> boundedMatching a (skipBody m).
Proof. now intros [H1 H2]. Qed.

Lemma matchBody_bounded (a : Qc) (m : Matching) :
  boundedMatching a m -> boundedMatching a (matchBody m).
Proof.
  intros [(x & Ex & Hx0 & Hxa) Hs]. unfold matchBody.
  destruct (m_sells m !! m_sellIndex m) as [sell|] eqn:E;
    [|split; [exists x|]; auto].
  assert (nonNegativeTrade sell) as (y & Ey & Hy).
  { rewrite List.Forall_forall in Hs. apply Hs.
    apply list_elem_of_In. eapply list_elem_of_lookup_2, E. }
  unfold boundedMatching. cbn [buyAmount m_sells].
  rewrite Ex, Ey, min_Fin. cbn [sub neg add].
  pose proof (Qcmin_le_l x y) as Hl. pose proof (Qcmin_le_r x y) as Hr.
  pose proof (Qcmin_nonneg x y Hx0 Hy) as H0.
  split.
  - exists (x + - Qcmin x y). split; [reflexivity|]. split.
    + now apply Qcle_minus_iff in Hl.
    + apply Qcle_trans with x; [|assumption].
      apply Qcle_trans with (x + 0);
        [|rewrite Qcplus_0_r; apply Qcle_refl].
      apply Qcle_plus_r. rewrite <- Qcopp_0. now apply Qcopp_le_compat.
  - apply Forall_insert; [assumption|].
    exists (y + - Qcmin x y). split; [reflexivity|].
    now apply Qcle_minus_iff in Hr.
Qed.

Variable priceAt : Z -> option PriceSample.
Hypothesis prices : nonNegativePrices priceAt.

(** A buy adds at least nothing and at most its own value. *)
Lemma buyStep_bounded (st : Ledger) (buy : Trade) (q : Qc) :
  nonNegativeTrade buy -> Forall nonNegativeTrade (sells st) ->
  investedUSD st = Fin q ->
  exists st' q',
    buyStep priceAt st buy = Some st' /\
    investedUSD st' = Fin q' /\ q <= q' /\ q' <= q + valueQ priceAt buy /\
    Forall nonNegativeTrade (sells st').
Proof.
  intros (a & Ea & Ha) Hsells Eq.
  destruct (prices (timestamp buy)) as (y & Ey & Hy).
  set (m0 := {| buyAmount := amount buy; m_sells := sells st;
                m_sellIndex := sellIndex st |}).
  destruct (skip_terminates buy m0) as [m1 E1].
  destruct (match_terminates m1) as [m2 E2].
  assert (boundedMatching a m2) as [(x & Ex & Hx0 & Hxa) Hs2].
  { eapply (while_invariant _ _ (boundedMatching a)); [| |exact E2].
    - intros s Hs _. now apply matchBody_bounded.
    - eapply (while_invariant _ _ (boundedMatching a)); [| |exact E1].
      + intros s Hs _. now apply skipBody_bounded.
      + split; [|assumption]. exists a. cbn [buyAmount].
        repeat split; [assumption | assumption | apply Qcle_refl]. }
  assert (valueQ priceAt buy = a * y) as Ev
    by (unfold valueQ; now rewrite Ea, Ey).
  assert (0 <= a * y) as Hay.
  { rewrite <- (Qcmult_0_l y). now apply Qcmult_le_compat_r. }
  destruct (buyAmount m2 >? zero)%num eqn:Hr.
  - rewrite (buyStep_residual priceAt st buy m1 m2 E1 E2 Hr).
    exists {| netTokens := (netTokens st + buyAmount m2)%num;
              investedUSD :=
                (investedUSD st
                 + buyAmount m2 * priceOrZero (priceAt (timestamp buy)))%num;
              sells := m_sells m2; sellIndex := m_sellIndex m2 |}.
    exists (q + x * y). cbn [investedUSD sells].
    split; [reflexivity|]. split; [now rewrite Eq, Ex, Ey|].
    split; [|split; [|assumption]].
    + rewrite <- (Qcplus_0_r q) at 1. apply Qcle_plus_r.
      rewrite <- (Qcmult_0_l y). now apply Qcmult_le_compat_r.
    + rewrite Ev. apply Qcle_plus_r. now apply Qcmult_le_compat_r.
  - rewrite (buyStep_consumed priceAt st buy m1 m2 E1 E2 Hr).
    exists {| netTokens := netTokens st; investedUSD := investedUSD st;
              sells := m_sells m2; sellIndex := m_sellIndex m2 |}.
    exists q. cbn [investedUSD sells].
    split; [reflexivity|]. split; [assumption|].
    split; [apply Qcle_refl|]. split; [|assumption].
    rewrite Ev. rewrite <- (Qcplus_0_r q) at 1. now apply Qcle_plus_r.
Qed.

Lemma buyLoop_bounded (buys : list Trade) (st : Ledger) (q : Qc) :
  Forall nonNegativeTrade buys -> Forall nonNegativeTrade (sells st) ->
  investedUSD st = Fin q ->
  exists st' q',
    buyLoop priceAt st buys = Some st' /\
    investedUSD st' = Fin q' /\ q <= q' /\
    q' <= q + Qsum (map (valueQ priceAt) buys).
Proof.
  intros Hbuys. revert st q.
  induction Hbuys as [|buy rest Hbuy Hrest IH]; intros st q Hsells Eq;
    cbn [buyLoop].
  - exists st, q. split; [reflexivity|]. split; [assumption|].
    split; [apply Qcle_refl|]. unfold Qsum. cbn [map fold_right].
    rewrite Qcplus_0_r. apply Qcle_refl.
  - destruct (buyStep_bounded st buy q Hbuy Hsells Eq)
      as (st1 & q1 & -> & E1 & Hlo & Hhi & Hs1).
    cbn [mbind option_bind].
    destruct (IH st1 q1 Hs1 E1) as (st' & q' & Hloop & E' & Hlo' & Hhi').
    exists st', q'. split; [assumption|]. split; [assumption|]. split.
    + now apply Qcle_trans with q1.
    + apply Qcle_trans with (q1 + Qsum (map (valueQ priceAt) rest));
        [assumption|].
      unfold Qsum. cbn [map fold_right]. fold (Qsum (map (valueQ priceAt) rest)).
      rewrite Qcplus_assoc.
      apply Qcplus_le_compat; [assumption | apply Qcle_refl].
Qed.

End Bounds.



(** ** A wallet whose raw PnL is not a number *)

Section Poisoned.

Import PnLCalculator.

Lemma add_NaN_r (a : num) : (a + NaN)%num = NaN.
Proof. now destruct a. Qed.

Lemma min_NaN_r (a : num) : min a NaN = NaN.
Proof. now destruct a. Qed.

Lemma fold_sum_NaN {A : Type} (f : A -> num) (l : list A) :
  fold_left (fun sum w => (sum + f w)%num) l NaN = NaN.
Proof. induction l as [|x l IH]; cbn [fold_left]; [reflexivity | exact IH]. Qed.

(** A sum with a NaN term is NaN. *)
Lemma sumOf_NaN {A : Type} (f : A -> num) (l : list A) (x : A) :
  In x l -> f x = NaN -> sumOf f l = NaN.
Proof.
  unfold sumOf. generalize zero.
  induction l as [|y l IH]; intros a Hin Hx; [destruct Hin|].
  cbn [fold_left]. destruct Hin as [-> | Hin].
  - rewrite Hx, add_NaN_r. apply fold_sum_NaN.
  - now apply IH.
Qed.

Lemma settleLoser_NaN (mode : string) (pcts : gmap string num)
    (totalLoss : num) (n : nat) (c : CalculatedWallet) :
  offeredMode mode ->
  redistributionAmount (settleLoser mode pcts NaN totalLoss n c) = NaN /\
  finalBalance (settleLoser mode pcts NaN totalLoss n c) = NaN.
Proof.
  intros [-> | [-> | ->]]; unfold settleLoser;
    cbn [redistributionAmount finalBalance String.eqb Ascii.eqb Bool.eqb];
    cbn [mul div]; now rewrite add_NaN_r.
Qed.

End Poisoned.

(** X13.  A wallet whose raw PnL is NaN (entered, for one, with the
    form's default market caps 0 and 0) is a loser and turns the total
    loss into NaN: as soon as the total profit is not 0, under each of the
    three modes, every stored record of the group, winners and losers
    alike, gets NaN as redistributionAmount and as finalBalance. *)
Theorem NaN_wallet_spoils_the_group
    (mode : string) (pcts : gmap string num) (ws : list WalletData)
    (w : WalletData) :
  offeredMode mode ->
  In w ws ->
  rawPnL (walletWithPnL w) = NaN ->
  totalProfitOf (map walletWithPnL ws) <> zero ->
  exists out,
    PnLCalculator.calculatePnL mode pcts ws = Some out /\
    map wallet out = ws /\
    Forall (fun c => redistributionAmount c = NaN /\ finalBalance c = NaN) out.
Proof.
  intros Hmode Hin Hnan Hprofit.
  assert (ws <> []) as Hne by (intros ->; destruct Hin).
  rewrite (calculatePnL_stores mode pcts ws Hne). cbv zeta.
  set (W := map walletWithPnL ws) in *.
  assert (In (walletWithPnL w) (losersOf W)) as Hloser.
  { apply losers_are_losers; [now apply in_map|].
    cbn [walletWithPnL isProfit]. cbn [walletWithPnL rawPnL] in Hnan.
    now rewrite Hnan. }
  assert (totalLossOf W = NaN) as Hloss.
  { unfold totalLossOf.
    now rewrite (sumOf_NaN rawPnL _ (walletWithPnL w) Hloser Hnan). }
  assert (nothingToRedistribute W = false) as ->.
  { unfold nothingToRedistribute. rewrite Hloss.
    apply orb_false_iff. split; [now apply isZero_false | reflexivity]. }
  assert (poolOf W = NaN) as Hpool
    by (unfold poolOf; rewrite Hloss; apply min_NaN_r).
  rewrite Hpool, Hloss.
  set (settle := PnLCalculator.settleLoser mode pcts NaN NaN
                   (length (losersOf W))).
  assert (sumOf redistributionAmount (map settle (losersOf W)) = NaN) as Hout.
  { rewrite sumOf_map.
    apply (sumOf_NaN _ _ (walletWithPnL w) Hloser).
    now apply settleLoser_NaN. }
  rewrite Hout. eexists. split; [reflexivity|]. split.
  - apply wallets_kept_by. intros c. now destruct (isProfit c).
  - apply List.Forall_map, List.Forall_forall. intros c _.
    destruct (isProfit c).
    + unfold PnLCalculator.settleWinner.
      cbn [redistributionAmount finalBalance neg mul].
      now rewrite add_NaN_r.
    + now apply settleLoser_NaN.
Qed.

Lemma NaN_wallet_spoils_the_group_witness :
  exists out,
    PnLCalculator.calculatePnL "equal" ∅ [walletA; walletB; walletN] = Some out /\
    map wallet out = [walletA; walletB; walletN] /\
    Forall (fun c => redistributionAmount c = NaN /\ finalBalance c = NaN) out.
Proof.
  apply (NaN_wallet_spoils_the_group "equal" ∅ [walletA; walletB; walletN]
           walletN).
  - left. reflexivity.
  - right. right. left. reflexivity.
  - vm_compute. reflexivity.
  - vm_compute. discriminate.
Defined.

(** ** The wallet form *)

Section Form.

Import DataInput.

Lemma removeWallet_fresh (walletId : string) (l : list WalletData) :
  Forall (fun w => id w <> walletId) l ->
  List.filter (fun w => negb (String.eqb (id w) walletId)) l = l.
Proof.
  induction 1 as [|w l Hw _ IH]; cbn [List.filter]; [reflexivity|].
  apply String.eqb_neq in Hw. rewrite Hw. cbn [negb]. now rewrite IH.
Qed.

Lemma filter_snoc {A : Type} (f : A -> bool) (l : list A) (x : A) :
  List.filter f (l ++ [x]) = List.filter f l ++ (if f x then [x] else []).
Proof.
  induction l as [|y l IH]; cbn [List.filter app]; [now destruct (f x)|].
  rewrite IH. now destruct (f y).
Qed.

(** What holds of the list after every event: the ids are distinct and
    are clock readings of earlier clicks, and every wallet has passed the
    check of [addWallet]. *)
Definition formInvariant (seen : list Z) (l : list WalletData) : Prop :=
  NoDup (map id l) /\
  Forall (fun w => exists now, In now seen /\ id w = pretty now) l /\
  Forall checkedByForm l.

Lemma formInvariant_filter (seen : list Z) (f : WalletData -> bool)
    (l : list WalletData) :
  formInvariant seen l -> formInvariant seen (List.filter f l).
Proof.
  intros (Hnd & Hseen & Hok). induction l as [|w l IH]; cbn [List.filter].
  - repeat split; constructor.
  - cbn [map] in Hnd. apply NoDup_cons in Hnd as [Hnotin Hnd].
    apply Forall_cons_1 in Hseen as [Hw Hseen].
    apply Forall_cons_1 in Hok as [Hc Hok].
    destruct (IH Hnd Hseen Hok) as (IH1 & IH2 & IH3).
    destruct (f w); [|now repeat split].
    split; [|split]; [|now constructor..].
    cbn [map]. apply NoDup_cons_2; [|exact IH1].
    intros Hin. apply Hnotin.
    apply list_elem_of_In, in_map_iff in Hin as (w' & Hid & Hin).
    apply list_elem_of_In, in_map_iff. exists w'. split; [exact Hid|].
    now apply List.filter_In in Hin as [Hin _].
Qed.

Lemma formInvariant_seen (seen : list Z) (now : Z) (l : list WalletData) :
  formInvariant seen l -> formInvariant (now :: seen) l.
Proof.
  intros (Hnd & Hseen & Hok). split; [exact Hnd|]. split; [|exact Hok].
  eapply List.Forall_impl; [|exact Hseen].
  intros w (t & Ht & Hid). exists t. split; [now right | exact Hid].
Qed.

Lemma formInvariant_add (seen : list Z) (now : Z) (st : State) :
  ~ In now seen ->
  formInvariant seen (wallets st) ->
  formInvariant (now :: seen) (wallets (fst (addWallet now st))).
Proof.
  intros Hfresh Hinv. unfold addWallet. cbv zeta.
  destruct (falsyString (new_walletAddress (newWallet st))) eqn:Ea;
    [now apply formInvariant_seen|].
  destruct (falsyString (new_tokenName (newWallet st))) eqn:Et;
    [now apply formInvariant_seen|].
  destruct (leb (new_investedAmount (newWallet st)) zero) eqn:Ei;
    [now apply formInvariant_seen|].
  cbn [orb fst wallets].
  destruct Hinv as (Hnd & Hseen & Hok). split; [|split].
  - rewrite map_app. cbn [map id]. apply NoDup_app. split; [exact Hnd|].
    split; [|apply NoDup_singleton].
    intros i Hi Hnow. apply list_elem_of_singleton in Hnow as ->.
    apply list_elem_of_In, in_map_iff in Hi as (w & Hid & Hin).
    pose proof (proj1 (List.Forall_forall _ _) Hseen w Hin)
      as (t & Ht & Hidt).
    rewrite Hid in Hidt. apply (inj pretty) in Hidt as ->.
    now apply Hfresh.
  - apply Forall_app. split.
    + eapply List.Forall_impl; [|exact Hseen].
      intros w (t & Ht & Hid). exists t. split; [now right | exact Hid].
    + constructor; [|constructor]. exists now. split; [now left | reflexivity].
  - apply Forall_app. split; [exact Hok|].
    constructor; [|constructor]. unfold checkedByForm.
    cbn [walletAddress tokenName investedAmount].
    split; [|split]; [| |exact Ei].
    + intros E. now rewrite E in Ea.
    + intros E. now rewrite E in Et.
Qed.

Lemma session_invariant (events : list Event) :
  forall (seen : list Z) (st : State),
    NoDup (clockReadings events) ->
    (forall now, In now (clockReadings events) -> ~ In now seen) ->
    formInvariant seen (wallets st) ->
    exists seen',
      formInvariant seen' (wallets (fold_left handle events st)).
Proof.
  induction events as [|event events IH]; intros seen st Hnd Hfresh Hinv;
    cbn [fold_left]; [now exists seen|].
  destruct event;
    try (apply (IH seen); [exact Hnd | exact Hfresh | exact Hinv]).
  - cbn [clockReadings flat_map app] in Hnd, Hfresh.
    apply NoDup_cons in Hnd as [Hnotin Hnd].
    apply (IH (now :: seen)); [exact Hnd | |].
    + intros t Ht [<- | Hin].
      * apply Hnotin. now apply list_elem_of_In.
      * apply (Hfresh t); [now right | exact Hin].
    + cbn [handle]. apply formInvariant_add; [|exact Hinv].
      apply Hfresh. now left.
  - apply (IH seen); [exact Hnd | exact Hfresh |].
    cbn [handle removeWallet wallets]. now apply formInvariant_filter.
Qed.

End Form.

(** X14.  Removing the wallet that a click on "Add Wallet" has just
    stored gives back the list that was there before the click, as long
    as no wallet of that list carries the same id; the click may also
    have been rejected, then both steps leave the list alone. *)
Theorem remove_undoes_add (now : Z) (st : DataInput.State) :
  Forall (fun w => id w <> pretty now) (DataInput.wallets st) ->
  DataInput.wallets
    (DataInput.removeWallet (pretty now) (fst (DataInput.addWallet now st)))
  = DataInput.wallets st.
Proof.
  intros Hfresh. unfold DataInput.addWallet. cbv zeta.
  destruct (_ || _ || _); cbn [fst DataInput.removeWallet DataInput.wallets].
  - now apply removeWallet_fresh.
  - rewrite filter_snoc, (removeWallet_fresh _ _ Hfresh). cbn [id].
    rewrite String.eqb_refl. cbn [negb]. apply app_nil_r.
Qed.

Lemma remove_undoes_add_witness :
  let st := DataInput.session
              [ DataInput.WalletAddressChanged "addrA";
                DataInput.TokenNameChanged "TOK";
                DataInput.InvestedAmountChanged (ofZ 1000);
                DataInput.AddClicked 1700000000000;
                DataInput.WalletAddressChanged "addrB";
                DataInput.TokenNameChanged "TOK";
                DataInput.InvestedAmountChanged (ofZ 500) ] in
  snd (DataInput.addWallet 1700000000001 st) = DataInput.WalletAdded /\
  DataInput.wallets
    (DataInput.removeWallet (pretty 1700000000001)
       (fst (DataInput.addWallet 1700000000001 st)))
  = DataInput.wallets st.
Proof.
  cbv zeta. split; [vm_compute; reflexivity|].
  apply (remove_undoes_add 1700000000001).
  vm_compute. constructor; [discriminate | constructor].
Defined.

(** X15.  In a session of the form without a CSV import in which no two
    clicks on "Add Wallet" read the same clock value, the stored wallets
    always have pairwise distinct ids, and each of them has a non-empty
    address, a non-empty token name and an invested amount that is not
    [<= 0].  The market caps are not checked. *)
Theorem session_ids_are_unique (events : list DataInput.Event) :
  NoDup (clockReadings events) ->
  NoDup (map id (DataInput.wallets (DataInput.session events))) /\
  Forall checkedByForm (DataInput.wallets (DataInput.session events)).
Proof.
  intros Hnd.
  destruct (session_invariant events [] DataInput.initialState Hnd)
    as (seen' & H1 & _ & H3).
  - intros now _ [].
  - repeat split; constructor.
  - now split.
Qed.

Lemma session_ids_are_unique_witness :
  NoDup (map id (DataInput.wallets (DataInput.session exampleSession))) /\
  Forall checkedByForm (DataInput.wallets (DataInput.session exampleSession)).
Proof.
  apply (session_ids_are_unique exampleSession).
  apply (bool_decide_eq_true_1 _). vm_compute. reflexivity.
Defined.

(** ** Position reconstruction: the order of arrival *)

Section Arrival.

Import TokenService.

(** Two trades of different timestamps can be inserted in either order. *)
Lemma insertByTimestamp_comm (x y : Trade) (l : list Trade) :
  timestamp x <> timestamp y ->
  insertByTimestamp x (insertByTimestamp y l)
  = insertByTimestamp y (insertByTimestamp x l).
Proof.
  intros Hxy. induction l as [|z l IH]; cbn [insertByTimestamp].
  - destruct (Z.leb_spec (timestamp x) (timestamp y)),
             (Z.leb_spec (timestamp y) (timestamp x));
      first [lia | reflexivity].
  - destruct (Z.leb_spec (timestamp y) (timestamp z)),
             (Z.leb_spec (timestamp x) (timestamp z));
      cbn [insertByTimestamp];
      repeat match goal with
             | |- context [?a <=? ?b] => destruct (Z.leb_spec a b)
             end;
      first [lia | reflexivity | now rewrite IH].
Qed.

Lemma sortByTimestamp_permutation (l l' : list Trade) :
  Permutation l l' ->
  NoDup (map timestamp l) ->
  sortByTimestamp l = sortByTimestamp l'.
Proof.
  unfold sortByTimestamp.
  induction 1 as [|x l l' Hp IH|x y l|l l' l'' Hp IH Hp' IH']; intros Hnd.
  - reflexivity.
  - cbn [fold_right map] in *. rewrite IH; [reflexivity|].
    now apply NoDup_cons_1_2 in Hnd.
  - cbn [fold_right map] in *. apply insertByTimestamp_comm.
    apply NoDup_cons_1_1 in Hnd. intros E. apply Hnd. rewrite E. now left.
  - rewrite IH by exact Hnd. apply IH'.
    now rewrite <- Hp.
Qed.

Lemma collect_permutation (contractAddress : string)
    (side : TokenTransfer -> bool) (txs txs' : list Transaction) :
  Permutation txs txs' ->
  Permutation (collect contractAddress side txs)
              (collect contractAddress side txs').
Proof.
  intros Hp. unfold collect. now apply Permutation_flat_map.
Qed.

End Arrival.

(** X16.  The position does not depend on the order in which the
    transactions arrive, as long as the buys have pairwise different
    timestamps and so have the sells: the two sorts then undo any
    reordering of the list. *)
Theorem arrival_order_is_irrelevant
    (priceAt : Z -> option TokenService.PriceSample)
    (walletAddress contractAddress : string) (currentMarketCap : num)
    (now : Z) (transactions transactions' : list TokenService.Transaction) :
  Permutation transactions transactions' ->
  NoDup (map TokenService.timestamp
           (TokenService.collectBuys walletAddress contractAddress
              transactions)) ->
  NoDup (map TokenService.timestamp
           (TokenService.collectSells walletAddress contractAddress
              transactions)) ->
  TokenService.fetchWalletData priceAt walletAddress contractAddress
    currentMarketCap now transactions'
  = TokenService.fetchWalletData priceAt walletAddress contractAddress
      currentMarketCap now transactions.
Proof.
  intros Hp Hbuys Hsells. unfold TokenService.fetchWalletData. cbv zeta.
  pose proof (collect_permutation contractAddress
                (fun t => String.eqb (TokenService.toUserAccount t)
                            walletAddress) _ _ Hp) as Pb.
  pose proof (collect_permutation contractAddress
                (fun t => String.eqb (TokenService.fromUserAccount t)
                            walletAddress) _ _ Hp) as Ps.
  fold (TokenService.collectBuys walletAddress contractAddress transactions)
    in Pb.
  fold (TokenService.collectBuys walletAddress contractAddress transactions')
    in Pb.
  fold (TokenService.collectSells walletAddress contractAddress transactions)
    in Ps.
  fold (TokenService.collectSells walletAddress contractAddress transactions')
    in Ps.
  rewrite <- (Permutation_length Pb).
  rewrite <- (sortByTimestamp_permutation _ _ Pb Hbuys).
  rewrite <- (sortByTimestamp_permutation _ _ Ps Hsells).
  reflexivity.
Qed.

Lemma arrival_order_is_irrelevant_witness :
  TokenService.fetchWalletData flatPrice "W" "M" (ofZ 1000) 100
    (rev exampleTransactions)
  = TokenService.fetchWalletData flatPrice "W" "M" (ofZ 1000) 100
      exampleTransactions.
Proof.
  apply (arrival_order_is_irrelevant flatPrice "W" "M" (ofZ 1000) 100
           exampleTransactions (rev exampleTransactions)).
  - apply Permutation_rev.
  - apply (bool_decide_eq_true_1 _). vm_compute. reflexivity.
  - apply (bool_decide_eq_true_1 _). vm_compute. reflexivity.
Defined.
